(** * cliHelper.predictor: the prediction engine and its websocket session

    A shallow embedding of [Private/predictor_server.py]:
    [CommandPredictor.predict_next_command], [CommandPredictor.record_command]
    and [websocket_endpoint], followed by the properties of the written
    specification that can be settled on it.

    Modelling choices.
    - Python exceptions are the [Raise] outcome of a computation; the
      carried string is [str(e)], which is what the session puts in the
      [message] field of an error envelope.
    - The process state touched by the code is the record [World]: the
      fitted state of the shared [self.vectorizer], the rows of the
      [command_history] table, what was sent on the websocket, whether the
      websocket is still connected, and the state of the external
      collaborators (the sampler of the language model, the condition of
      the database file). A ghost [trace] logs the calls made to the
      libraries.
    - The libraries are parameters of the development: the tokenizer and
      language model ([generate]), the TF-IDF vectorizer ([fit],
      [transform], [dot]), [np.argsort] ([argsort]) and the sqlite INSERT
      ([sqlite_insert]).
    - Similarity scores are floats in the program; they are rationals here,
      with the order of the rationals. Strings are byte strings; on valid
      UTF-8 text a byte prefix is a code point prefix, so [String.prefix]
      is [str.startswith]. *)

From Stdlib Require Import QArith Sorting.Sorted Sorting.Permutation.
From stdpp Require Import gmap strings list sorting.

(** ** Outcomes *)

Inductive outcome (A : Type) : Type :=
| Return (a : A)
| Raise (e : string).
Arguments Return {A} a.
Arguments Raise {A} e.

(** ** Data model *)

(** [{"command": ..., "score": ...}] *)
Record Candidate : Type := mkCandidate { command : string; score : Q }.

(** The response envelopes built in [websocket_endpoint]. *)
Inductive Envelope : Type :=
| Predictions (predictions : list Candidate)
| Recorded
| Error (message : string).

(** A decoded request object, seen through the keys the endpoint reads.
    A field is [None] when the key is absent. The model covers objects
    whose fields, when present, have the JSON type of the envelope
    (strings, and a list of strings for [history]). *)
Record Request : Type := mkRequest {
  req_type : option string;
  req_current_input : option string;
  req_history : option (list string);
  req_command : option string;
  req_context : option string
}.

(** What [json.loads(data)] makes of one inbound text frame. *)
Inductive Frame : Type :=
| Undecodable (e : string)   (* json.loads raises, str(e) = e *)
| NotAnObject (e : string)   (* decodes to a non-dict; request["type"] raises e *)
| Object (request : Request).

(** Calls to the libraries, in the order they are made. *)
Inductive Call : Type :=
| CallGenerate (current_input : string)
| CallFit (corpus : list string)
| CallTransform (docs : list string)
| CallInsert (cmd ctx : string).

(** The fixed confidence of a generative candidate. *)
Definition ml_score : Q := 0.8.

(** [l[-3:]] *)
Definition last3 {A : Type} (l : list A) : list A := drop (length l - 3) l.

(** [scores[i]] *)
Definition score_at (scores : list Q) (i : nat) : Q := default 0%Q (scores !! i).


Section Server.

Context {Vocab Vec : Type}.

(** ** The process state *)

Record World : Type := mkWorld {
  vocabulary : option Vocab;                 (* self.vectorizer, None until fitted *)
  external : N;                              (* state of the external collaborators *)
  command_history : list (string * string);  (* rows (command, context) *)
  outbox : list Envelope;                    (* envelopes sent, oldest first *)
  connected : bool;                          (* the websocket is open *)
  trace : list Call                          (* ghost: library calls so far *)
}.

Definition set_vocabulary (v : option Vocab) (w : World) : World :=
  mkWorld v (external w) (command_history w) (outbox w) (connected w) (trace w).
Definition set_external (n : N) (w : World) : World :=
  mkWorld (vocabulary w) n (command_history w) (outbox w) (connected w) (trace w).
Definition set_command_history (rows : list (string * string)) (w : World) : World :=
  mkWorld (vocabulary w) (external w) rows (outbox w) (connected w) (trace w).
Definition set_outbox (o : list Envelope) (w : World) : World :=
  mkWorld (vocabulary w) (external w) (command_history w) o (connected w) (trace w).
Definition set_connected (b : bool) (w : World) : World :=
  mkWorld (vocabulary w) (external w) (command_history w) (outbox w) b (trace w).
Definition log (c : Call) (w : World) : World :=
  mkWorld (vocabulary w) (external w) (command_history w) (outbox w) (connected w)
          (trace w ++ [c]).

(** ** Computations: state passing with exceptions *)

Definition M (A : Type) : Type := World -> outcome A * World.

Definition ret {A : Type} (a : A) : M A := fun w => (Return a, w).
Definition raise {A : Type} (e : string) : M A := fun w => (Raise e, w).
Definition bind {A B : Type} (m : M A) (k : A -> M B) : M B :=
  fun w => match m w with
           | (Return a, w') => k a w'
           | (Raise e, w') => (Raise e, w')
           end.
(** [try: m except Exception as e: handler(e)] *)
Definition try_except {A : Type} (m : M A) (handler : string -> M A) : M A :=
  fun w => match m w with
           | (Return a, w') => (Return a, w')
           | (Raise e, w') => handler e w'
           end.

Notation "x <- m ;; k" := (bind m (fun x => k))
  (at level 20, m at level 99, k at level 200, only parsing).

(** ** The libraries *)

(** tokenizer, [model.generate] and [tokenizer.decode] of each output:
    the decoded sequences, or the exception raised on the way. *)
Variable generate : N -> string -> outcome (list string) * N.
(** [TfidfVectorizer.fit], [.transform] of one document, and the product of
    two rows. [fit] raises for a corpus without any token. *)
Variable fit : list string -> outcome Vocab.
Variable transform : Vocab -> string -> Vec.
Variable dot : Vec -> Vec -> Q.
(** [np.argsort] *)
Variable argsort : list Q -> list nat.
(** The INSERT and commit of [record_command]: [Some e] when sqlite raises. *)
Variable sqlite_insert : N -> string -> string -> option string * N.

Definition model_generate (current_input : string) : M (list string) :=
  fun w => let '(r, n) := generate (external w) current_input in
           (r, set_external n (log (CallGenerate current_input) w)).

Definition vectorizer_fit (corpus : list string) : M unit :=
  fun w => let w' := log (CallFit corpus) w in
           match fit corpus with
           | Return v => (Return tt, set_vocabulary (Some v) w')
           | Raise e => (Raise e, w')
           end.

Definition vectorizer_transform (docs : list string) : M (list Vec) :=
  fun w => let w' := log (CallTransform docs) w in
           match vocabulary w with
           | Some v => (Return (map (transform v) docs), w')
           | None => (Raise "NotFittedError", w')
           end.

(** [(similarities * history_matrix.T).A[0]] *)
Definition product_row0 (similarities history_matrix : list Vec) : list Q :=
  match similarities with
  | q :: _ => map (dot q) history_matrix
  | [] => []
  end.

(** ** CommandPredictor.predict_next_command *)

(** The state of the merge: [combined_predictions] and [seen]. *)
Definition Merge : Type := list Candidate * gset string.

(** One round of [for pred in ml_predictions]. *)
Definition add_ml (st : Merge) (pred : string) : Merge :=
  if decide (pred ∈ st.2) then st
  else (st.1 ++ [mkCandidate pred ml_score], {[pred]} ∪ st.2).

(** One round of [for idx in np.argsort(scores)[-3:]]; a subscript out of
    range raises IndexError. *)
Definition add_history (history : list string) (scores : list Q)
    (st : Merge) (idx : nat) : outcome Merge :=
  match history !! idx with
  | None => Raise "list index out of range"
  | Some h =>
      if decide (h ∈ st.2) then Return st
      else match scores !! idx with
           | None => Raise "index out of bounds"
           | Some s => Return (st.1 ++ [mkCandidate h s], {[h]} ∪ st.2)
           end
  end.

Fixpoint history_loop (history : list string) (scores : list Q)
    (idxs : list nat) (st : Merge) : outcome Merge :=
  match idxs with
  | [] => Return st
  | idx :: rest =>
      match add_history history scores st idx with
      | Return st' => history_loop history scores rest st'
      | Raise e => Raise e
      end
  end.

Definition lift {A : Type} (o : outcome A) : M A := fun w => (o, w).

Definition ml_filter (current_input : string) (outputs : list string) : list string :=
  List.filter (fun decoded => String.prefix current_input decoded) outputs.

Definition predict_next_command (current_input : string) (history : list string)
    : M (list Candidate) :=
  outputs <- model_generate current_input ;;
  let ml_predictions := ml_filter current_input outputs in
  match history with
  | _ :: _ =>
      _ <- vectorizer_fit history ;;
      similarities <- vectorizer_transform [current_input] ;;
      history_matrix <- vectorizer_transform history ;;
      let scores := product_row0 similarities history_matrix in
      let st := fold_left add_ml ml_predictions ([], ∅) in
      st' <- lift (history_loop history scores (last3 (argsort scores)) st) ;;
      ret st'.1
  | [] => ret (map (fun pred => mkCandidate pred ml_score) ml_predictions)
  end.

(** ** CommandPredictor.record_command *)

Definition record_command (cmd ctx : string) : M unit :=
  fun w => let w' := log (CallInsert cmd ctx) w in
           match sqlite_insert (external w) cmd ctx with
           | (None, n) =>
               (Return tt, set_external n
                             (set_command_history (command_history w ++ [(cmd, ctx)]) w'))
           | (Some e, n) => (Raise e, set_external n w')
           end.

(** ** websocket_endpoint *)

(** [websocket.send_json]: on a closed websocket it raises and nothing
    reaches the client. *)
Definition send_json (env : Envelope) : M unit :=
  fun w => if connected w then (Return tt, set_outbox (outbox w ++ [env]) w)
           else (Raise "websocket is not connected", w).

Definition json_loads (data : Frame) : M Frame :=
  match data with
  | Undecodable e => raise e
  | _ => ret data
  end.

(** [request[key]]: KeyError on a missing key, TypeError on a non-dict. *)
Definition subscript {A : Type} (request : Frame) (key : string)
    (field : Request -> option A) : M A :=
  match request with
  | Object r => match field r with
                | Some v => ret v
                | None => raise ("'" +:+ key +:+ "'")
                end
  | NotAnObject e => raise e
  | Undecodable e => raise e
  end.

(** [request.get(key, default)] *)
Definition get {A : Type} (request : Frame) (field : Request -> option A)
    (fallback : A) : M A :=
  match request with
  | Object r => ret (default fallback (field r))
  | NotAnObject e => raise e
  | Undecodable e => raise e
  end.

(** The body of [while True], after [receive_text] delivered [data]. *)
Definition handle_message (data : Frame) : M unit :=
  request <- json_loads data ;;
  ty <- subscript request "type" req_type ;;
  if String.eqb ty "predict" then
    current_input <- subscript request "current_input" req_current_input ;;
    history <- get request req_history [] ;;
    predictions <- predict_next_command current_input history ;;
    send_json (Predictions predictions)
  else
    ty' <- subscript request "type" req_type ;;
    if String.eqb ty' "record" then
      cmd <- subscript request "command" req_command ;;
      ctx <- get request req_context EmptyString ;;
      _ <- record_command cmd ctx ;;
      send_json Recorded
    else ret tt.

(** [websocket.receive_text] once the client is gone. *)
Definition receive_disconnect : M unit :=
  fun w => (Raise "WebSocketDisconnect", set_connected false w).

(** [while True: data = await websocket.receive_text(); ...] over the
    frames the client sends before it disconnects. The loop has no exit
    but an exception. *)
Fixpoint receive_loop (inbound : list Frame) : M unit :=
  match inbound with
  | [] => receive_disconnect
  | data :: rest => _ <- handle_message data ;; receive_loop rest
  end.

Definition websocket_endpoint (inbound : list Frame) : M unit :=
  try_except (receive_loop inbound) (fun e => send_json (Error e)).


(** ** Vocabulary of the statements *)

(** [seen] holds exactly the commands of [combined_predictions], and no
    command is there twice. *)
Definition merge_ok (st : Merge) : Prop :=
  NoDup (map command st.1) /\ forall x, x ∈ st.2 <-> x ∈ map command st.1.

(** The candidate the second loop builds for index [i]. *)
Definition hist_candidate (history : list string) (scores : list Q) (i : nat)
    : Candidate :=
  mkCandidate (default EmptyString (history !! i)) (score_at scores i).

(** The similarity of [current_input] to a history entry under the
    vocabulary [v], and the vector [scores] of the program. *)
Definition similarity (v : Vocab) (current_input entry : string) : Q :=
  dot (transform v current_input) (transform v entry).

Definition similarity_scores (v : Vocab) (current_input : string)
    (history : list string) : list Q :=
  map (similarity v current_input) history.

(** [combined_predictions] after the loop over [ml_predictions]. *)
Definition generative_part (current_input : string) (outputs : list string)
    : list Candidate :=
  (fold_left add_ml (ml_filter current_input outputs) ([], ∅)).1.

(** The world after a call with a non-empty history that got as far as the
    merge. *)
Definition scored_world (v : Vocab) (n : N) (current_input : string)
    (history : list string) (w : World) : World :=
  log (CallTransform history)
    (log (CallTransform [current_input])
       (set_vocabulary (Some v)
          (log (CallFit history)
             (set_external n (log (CallGenerate current_input) w))))).

(** The body of the loop over a run of frames, up to the first exception. *)
Fixpoint handle_all (frames : list Frame) : M unit :=
  match frames with
  | [] => ret tt
  | data :: rest => _ <- handle_message data ;; handle_all rest
  end.

End Server.

Arguments World : clear implicits.
Arguments M : clear implicits.

(** ** What is assumed of np.argsort *)

(** The indices of [scores], each once, arranged so that the scores do not
    decrease. Nothing is said of the order of equal scores: the default
    sort of numpy is not stable. *)
Definition argsort_spec (argsort : list Q -> list nat) : Prop :=
  forall scores : list Q,
    Permutation (argsort scores) (seq 0 (length scores)) /\
    StronglySorted (fun i j => (score_at scores i <= score_at scores j)%Q)
                   (argsort scores).

(** ** Executable stand-ins for the libraries *)

Module Stub.

(** An argsort by insertion, which keeps equal scores in index order. *)
Fixpoint insert_index (scores : list Q) (i : nat) (sorted : list nat) : list nat :=
  match sorted with
  | [] => [i]
  | j :: rest =>
      if Qle_bool (score_at scores j) (score_at scores i)
      then j :: insert_index scores i rest
      else i :: j :: rest
  end.

Definition argsort (scores : list Q) : list nat :=
  fold_left (fun sorted i => insert_index scores i sorted)
            (seq 0 (length scores)) [].

(** A proposer that answers every prefix with the same outcome. *)
Definition generate (answer : outcome (list string)) (n : N) (_ : string)
    : outcome (list string) * N := (answer, n).

(** A scorer read off a table of similarities to the query: the vocabulary
    is the corpus, the row of a document is the document, and the product
    of the query row with a document row is the table entry (0 if none). *)
Definition fit (corpus : list string) : outcome (list string) := Return corpus.
Definition transform (_ : list string) (doc : string) : string := doc.
Fixpoint table_lookup (table : list (string * Q)) (doc : string) : Q :=
  match table with
  | [] => 0%Q
  | (d, s) :: rest => if String.eqb d doc then s else table_lookup rest doc
  end.
Definition dot (table : list (string * Q)) (_ doc : string) : Q :=
  table_lookup table doc.

(** A database that accepts every INSERT, and one that refuses them. *)
Definition insert_ok (n : N) (_ _ : string) : option string * N := (None, n).
Definition insert_fails (e : string) (n : N) (_ _ : string) : option string * N :=
  (Some e, n).

(** The world right after [websocket.accept()] in a fresh process. *)
Definition fresh : World (list string) :=
  mkWorld None 0%N [] [] true [].

(** The engine and the session over the stand-ins. *)
Definition predict (answer : outcome (list string)) (table : list (string * Q))
    (current_input : string) (history : list string)
    : M (list string) (list Candidate) :=
  predict_next_command (generate answer) fit transform (dot table) argsort
                       current_input history.

Definition session (answer : outcome (list string)) (table : list (string * Q))
    (insert : N -> string -> string -> option string * N)
    (inbound : list Frame) : M (list string) unit :=
  websocket_endpoint (generate answer) fit transform (dot table) argsort insert
                     inbound.

End Stub.

(** ** The scenario of the specification

    [current_input = "git "], [history = ["git status", "git commit", "ls"]],
    a proposer that answers ["git status"] and ["python"], and a scorer that
    finds "ls" to have nothing in common with the input. *)

Module Scenario.

Definition current_input : string := "git ".
Definition history : list string := ["git status"; "git commit"; "ls"].
Definition outputs : list string := ["git status"; "python"].
Definition table : list (string * Q) :=
  [("git status", 0.7%Q); ("git commit", 0.4%Q); ("ls", 0%Q)].

(** What the engine returns in the scenario. *)
Definition result : list Candidate :=
  [mkCandidate "git status" 0.8; mkCandidate "ls" 0; mkCandidate "git commit" 0.4].

(** What it returns from the history alone, when the proposer answers
    nothing. *)
Definition history_only : list Candidate :=
  [mkCandidate "ls" 0; mkCandidate "git commit" 0.4; mkCandidate "git status" 0.7].

Definition predict_request : Request :=
  mkRequest (Some "predict") (Some current_input) (Some history) None None.
Definition record_request : Request :=
  mkRequest (Some "record") None None (Some "ls -la") (Some "ctx").
Definition unknown_request : Request :=
  mkRequest (Some "unknown") None None None None.

End Scenario.

(** ** Vocabulary of the further statements *)

(** A list without its repetitions, the first occurrence of each element
    kept in place. *)
Fixpoint keep_first (l : list string) : list string :=
  match l with
  | [] => []
  | x :: rest =>
      x :: List.filter (fun y => negb (String.eqb x y)) (keep_first rest)
  end.

(** The row that the handling of a frame stores when it does not raise: a
    frame of type "record" with a command stores it with its context, or
    with the empty context when it has none. *)
Definition recorded_row (data : Frame) : list (string * string) :=
  match data with
  | Object r =>
      match req_type r, req_command r with
      | Some ty, Some cmd =>
          if String.eqb ty "record"
          then [(cmd, default EmptyString (req_context r))]
          else []
      | _, _ => []
      end
  | _ => []
  end.

Definition is_recorded (env : Envelope) : bool :=
  match env with
  | Recorded => true
  | _ => false
  end.

Definition is_error (env : Envelope) : bool :=
  match env with
  | Error _ => true
  | _ => false
  end.

(** A longer history, of which one entry is left out, and a session of
    four frames, the third of which cannot be decoded. *)

Module Longer.

Definition history : list string :=
  ["git status"; "git commit"; "ls"; "git push"].
Definition table : list (string * Q) :=
  [("git status", 0.7%Q); ("git commit", 0.4%Q); ("ls", 0%Q);
   ("git push", 0.5%Q)].
Definition result : list Candidate :=
  [mkCandidate "git status" 0.8; mkCandidate "git commit" 0.4;
   mkCandidate "git push" 0.5].

Definition bare_predict_request : Request :=
  mkRequest (Some "predict") (Some Scenario.current_input) None None None.
Definition bare_record_request : Request :=
  mkRequest (Some "record") None None (Some "pwd") None.
Definition capitalised_request : Request :=
  mkRequest (Some "Predict") (Some Scenario.current_input) None None None.

Definition handled : list Frame :=
  [Object Scenario.unknown_request; Object Scenario.record_request;
   Object Scenario.predict_request; Object bare_record_request].
Definition frames : list Frame :=
  [Object Scenario.predict_request; Object Scenario.record_request;
   Undecodable "Expecting value"; Object bare_record_request].

End Longer.

(** * Properties *)

(** ** Sorted lists and their sublists *)

Lemma Forall_sublist_of {A : Type} (P : A -> Prop) (k l : list A) :
  k `sublist_of` l -> Forall P l -> Forall P k.
Proof.
  induction 1 as [|x k l _ IH|x k l _ IH]; intros HP.
  - constructor.
  - inversion HP; subst. constructor; auto.
  - inversion HP; subst. auto.
Qed.


Lemma last3_sublist {A : Type} (l : list A) : last3 l `sublist_of` l.
Proof. apply sublist_drop. Qed.

Lemma last3_length {A : Type} (l : list A) : length (last3 l) <= 3.
Proof. unfold last3. rewrite length_drop. lia. Qed.

Lemma last3_short {A : Type} (l : list A) : length l <= 3 -> last3 l = l.
Proof.
  intros H. unfold last3. replace (length l - 3) with 0 by lia. reflexivity.
Qed.

(** ** The merge loops *)

Lemma merge_ok_empty : merge_ok ([], ∅).
Proof.
  split; [constructor|]. intros x; simpl. split; [set_solver|].
  intros H. inversion H.
Qed.

Lemma merge_ok_push (st : Merge) (c : Candidate) :
  merge_ok st -> command c ∉ st.2 ->
  merge_ok (st.1 ++ [c], {[command c]} ∪ st.2).
Proof.
  intros [Hnd Hseen] Hfresh. split; simpl.
  - rewrite map_app. simpl. apply NoDup_app. split; [exact Hnd|]. split.
    + intros x Hx Hx'. apply list_elem_of_singleton in Hx'. subst x.
      apply Hfresh, Hseen, Hx.
    + apply NoDup_singleton.
  - intros x. rewrite map_app, elem_of_app, elem_of_union, elem_of_singleton.
    simpl. rewrite list_elem_of_singleton, Hseen. tauto.
Qed.

Lemma add_ml_ok (st : Merge) (pred : string) : merge_ok st -> merge_ok (add_ml st pred).
Proof.
  intros Hok. unfold add_ml. destruct (decide (pred ∈ st.2)); [exact Hok|].
  apply (merge_ok_push st (mkCandidate pred ml_score)); assumption.
Qed.

Lemma fold_add_ml_ok (preds : list string) (st : Merge) :
  merge_ok st -> merge_ok (fold_left add_ml preds st).
Proof.
  revert st. induction preds as [|p preds IH]; intros st Hok; simpl; [exact Hok|].
  apply IH, add_ml_ok, Hok.
Qed.

(** What the first loop leaves in [combined_predictions]. *)
Lemma fold_add_ml_elem (preds : list string) (st : Merge) (c : Candidate) :
  merge_ok st ->
  c ∈ (fold_left add_ml preds st).1 <->
  c ∈ st.1 \/ (command c ∈ preds /\ (command c ∉ st.2) /\ score c = ml_score).
Proof.
  revert st. induction preds as [|p preds IH]; intros st Hok; simpl.
  - split; [auto|]. intros [H|[H _]]; [exact H|inversion H].
  - rewrite (IH _ (add_ml_ok st p Hok)). unfold add_ml.
    destruct (decide (p ∈ st.2)) as [Hin|Hnin]; simpl.
    + split.
      * intros [H|(H1 & H2 & H3)]; [auto|]. right. split; [|auto].
        apply elem_of_cons. auto.
      * intros [H|(H1 & H2 & H3)]; [auto|]. right. split; [|auto].
        apply elem_of_cons in H1 as [H1|H1]; [|exact H1].
        rewrite H1 in H2. contradiction.
    + rewrite elem_of_app, list_elem_of_singleton, elem_of_union, elem_of_singleton.
      split.
      * intros [[H| ->]|(H1 & H2 & H3)].
        -- auto.
        -- right. simpl. split; [apply elem_of_cons; auto|]. auto.
        -- right. split; [apply elem_of_cons; auto|]. split; [|exact H3].
           intros H. apply H2. auto.
      * intros [H|(H1 & H2 & H3)]; [auto|].
        destruct (decide (command c = p)) as [Heq|Hne].
        -- left. right. destruct c as [cc cs]. simpl in *. subst. reflexivity.
        -- right. apply elem_of_cons in H1 as [H1|H1]; [contradiction|].
           split; [exact H1|]. split; [|exact H3]. intros [H|H]; auto.
Qed.

(** What the second loop does to the merge state when it does not raise:
    it appends the candidates of some of the indices, in the order of the
    indices, and afterwards every visited entry is in [seen]. *)
Lemma history_loop_spec (history : list string) (scores : list Q)
    (idxs : list nat) (st st' : Merge) :
  merge_ok st ->
  history_loop history scores idxs st = Return st' ->
  merge_ok st' /\
  exists kept : list nat,
    kept `sublist_of` idxs /\
    st'.1 = st.1 ++ map (hist_candidate history scores) kept /\
    Forall (fun i => i < length history) kept /\
    (forall x, x ∈ st.2 -> x ∈ st'.2) /\
    (forall i, i ∈ idxs -> exists h, history !! i = Some h /\ h ∈ st'.2).
Proof.
  revert st. induction idxs as [|i idxs IH]; intros st Hok Hloop; simpl in Hloop.
  - injection Hloop as <-. split; [exact Hok|]. exists []. simpl.
    rewrite app_nil_r. repeat split; auto.
    intros i Hi. inversion Hi.
  - unfold add_history in Hloop.
    destruct (history !! i) as [h|] eqn:Hh; [|discriminate].
    destruct (decide (h ∈ st.2)) as [Hin|Hnin].
    + destruct (IH st Hok Hloop) as (Hok' & kept & Hsub & Heq & Hlt & Hmono & Hvis).
      split; [exact Hok'|]. exists kept. repeat split; auto.
      * apply sublist_cons, Hsub.
      * intros j Hj. apply elem_of_cons in Hj as [->|Hj]; [|auto].
        exists h. split; [exact Hh|]. auto.
    + destruct (scores !! i) as [s|] eqn:Hs; [|discriminate].
      pose proof (merge_ok_push st (mkCandidate h s) Hok Hnin) as Hok1.
      destruct (IH _ Hok1 Hloop) as (Hok' & kept & Hsub & Heq & Hlt & Hmono & Hvis).
      split; [exact Hok'|]. exists (i :: kept). repeat split; auto.
      * apply sublist_skip, Hsub.
      * rewrite Heq. simpl. rewrite <- app_assoc. simpl.
        unfold hist_candidate, score_at. rewrite Hh, Hs. reflexivity.
      * constructor; [|exact Hlt]. eapply lookup_lt_Some, Hh.
      * intros x Hx. apply Hmono. simpl. apply elem_of_union. auto.
      * intros j Hj. apply elem_of_cons in Hj as [->|Hj]; [|auto].
        exists h. split; [exact Hh|]. apply Hmono. simpl.
        apply elem_of_union. left. apply elem_of_singleton. reflexivity.
Qed.

(** The second loop does not raise on indices that are in range. *)
Lemma history_loop_returns (history : list string) (scores : list Q)
    (idxs : list nat) (st : Merge) :
  length scores = length history ->
  Forall (fun i => i < length history) idxs ->
  exists st', history_loop history scores idxs st = Return st'.
Proof.
  intros Hlen. revert st. induction idxs as [|i idxs IH]; intros st Hall; simpl.
  - eauto.
  - inversion Hall as [|? ? Hi Hrest]; subst. unfold add_history.
    destruct (lookup_lt_is_Some_2 history i Hi) as [h ->].
    destruct (decide (h ∈ st.2)); [auto|].
    rewrite <- Hlen in Hi. destruct (lookup_lt_is_Some_2 scores i Hi) as [s ->].
    auto.
Qed.

(** ** The engine *)

Section Engine.

Context {Vocab Vec : Type}.
Variable generate : N -> string -> outcome (list string) * N.
Variable fit : list string -> outcome Vocab.
Variable transform : Vocab -> string -> Vec.
Variable dot : Vec -> Vec -> Q.
Variable argsort : list Q -> list nat.

Abbreviation predict := (predict_next_command generate fit transform dot argsort).

Lemma product_row0_similarity (v : Vocab) (current_input : string)
    (history : list string) :
  product_row0 dot (map (transform v) [current_input]) (map (transform v) history)
  = similarity_scores transform dot v current_input history.
Proof. unfold similarity_scores, similarity. simpl. apply map_map. Qed.

Lemma similarity_scores_length (v : Vocab) (current_input : string)
    (history : list string) :
  length (similarity_scores transform dot v current_input history) = length history.
Proof. apply length_map. Qed.

Lemma score_at_similarity (v : Vocab) (current_input : string)
    (history : list string) (i : nat) (h : string) :
  history !! i = Some h ->
  score_at (similarity_scores transform dot v current_input history) i
  = similarity transform dot v current_input h.
Proof.
  intros Hh. unfold score_at, similarity_scores.
  rewrite list_lookup_fmap, Hh. reflexivity.
Qed.

(** A failure of the proposer leaves the call at once. *)
Lemma predict_generate_raises (current_input : string) (history : list string)
    (w : World Vocab) (e : string) (n : N) :
  generate (external w) current_input = (Raise e, n) ->
  predict current_input history w
  = (Raise e, set_external n (log (CallGenerate current_input) w)).
Proof.
  intros Hgen. unfold predict_next_command, bind, model_generate.
  rewrite Hgen. reflexivity.
Qed.

(** The call on an empty history. *)
Lemma predict_empty_history (current_input : string) (w : World Vocab)
    (outputs : list string) (n : N) :
  generate (external w) current_input = (Return outputs, n) ->
  predict current_input [] w
  = (Return (map (fun pred => mkCandidate pred ml_score)
                 (ml_filter current_input outputs)),
     set_external n (log (CallGenerate current_input) w)).
Proof.
  intros Hgen. unfold predict_next_command, bind, model_generate.
  rewrite Hgen. reflexivity.
Qed.

(** The call on a non-empty history, unfolded up to the second loop. *)
Lemma predict_nonempty_history (current_input : string) (history : list string)
    (w : World Vocab) (outputs : list string) (n : N) :
  history <> [] ->
  generate (external w) current_input = (Return outputs, n) ->
  predict current_input history w
  = match fit history with
    | Raise e =>
        (Raise e, log (CallFit history)
                    (set_external n (log (CallGenerate current_input) w)))
    | Return v =>
        let scores := similarity_scores transform dot v current_input history in
        (match history_loop history scores (last3 (argsort scores))
                 (fold_left add_ml (ml_filter current_input outputs) ([], ∅)) with
         | Return st' => Return st'.1
         | Raise e => Raise e
         end,
         scored_world v n current_input history w)
    end.
Proof.
  intros Hne Hgen. destruct history as [|h0 history']; [contradiction|].
  unfold predict_next_command, bind, model_generate. rewrite Hgen.
  unfold vectorizer_fit. destruct (fit (h0 :: history')) as [v|e]; [|reflexivity].
  unfold vectorizer_transform, lift, ret. cbn [vocabulary set_vocabulary log].
  rewrite product_row0_similarity.
  cbv zeta.
  destruct (history_loop _ _ _ _); reflexivity.
Qed.

(** A returning call on a non-empty history: the result is the generative
    part followed by the candidates of some of the three last indices of
    the argsort, in the order of the argsort. *)
Lemma predict_nonempty_inv (current_input : string) (history : list string)
    (w w' : World Vocab) (outputs : list string) (n : N)
    (result : list Candidate) :
  history <> [] ->
  generate (external w) current_input = (Return outputs, n) ->
  predict current_input history w = (Return result, w') ->
  exists (v : Vocab) (kept : list nat),
    let scores := similarity_scores transform dot v current_input history in
    fit history = Return v /\
    w' = scored_world v n current_input history w /\
    kept `sublist_of` last3 (argsort scores) /\
    Forall (fun i => i < length history) kept /\
    result = generative_part current_input outputs
             ++ map (hist_candidate history scores) kept /\
    NoDup (map command result) /\
    (forall i, i ∈ last3 (argsort scores) ->
               exists h, history !! i = Some h /\ h ∈ map command result).
Proof.
  intros Hne Hgen Hrun.
  rewrite (predict_nonempty_history _ _ _ _ _ Hne Hgen) in Hrun.
  destruct (fit history) as [v|e]; [|discriminate].
  cbv zeta in Hrun.
  destruct (history_loop _ _ _ _) as [st'|e] eqn:Hloop; [|discriminate].
  injection Hrun as <- <-.
  pose proof (fold_add_ml_ok (ml_filter current_input outputs) _ merge_ok_empty)
    as Hok.
  destruct (history_loop_spec _ _ _ _ _ Hok Hloop)
    as ([Hnd Hseen] & kept & Hsub & Heq & Hlt & _ & Hvis).
  exists v, kept. cbv zeta. repeat split; auto.
  intros i Hi. destruct (Hvis i Hi) as (h & Hh & Hin).
  exists h. split; [exact Hh|]. apply Hseen, Hin.
Qed.

Lemma prefix_refl (s : string) : String.prefix s s = true.
Proof.
  induction s as [|a s IH]; simpl; [reflexivity|].
  destruct (Ascii.ascii_dec a a) as [_|Hne]; [exact IH|contradiction].
Qed.

Lemma elem_of_ml_filter (current_input : string) (outputs : list string)
    (g : string) :
  g ∈ ml_filter current_input outputs <->
  g ∈ outputs /\ String.prefix current_input g = true.
Proof.
  unfold ml_filter. rewrite !list_elem_of_In. apply filter_In.
Qed.

Lemma elem_of_generative_part (current_input : string) (outputs : list string)
    (c : Candidate) :
  c ∈ generative_part current_input outputs <->
  command c ∈ outputs /\ String.prefix current_input (command c) = true /\
  score c = ml_score.
Proof.
  unfold generative_part.
  rewrite (fold_add_ml_elem _ _ c merge_ok_empty), elem_of_ml_filter. simpl.
  split.
  - intros [H|((H1 & H2) & _ & H3)]; [inversion H|auto].
  - intros (H1 & H2 & H3). right. repeat split; auto. set_solver.
Qed.

Lemma elem_of_history_part (v : Vocab) (current_input : string)
    (history : list string) (kept : list nat) (c : Candidate) :
  Forall (fun i => i < length history) kept ->
  c ∈ map (hist_candidate history (similarity_scores transform dot v current_input history)) kept ->
  command c ∈ history /\ score c = similarity transform dot v current_input (command c).
Proof.
  intros Hlt Hc. apply list_elem_of_fmap in Hc as (i & -> & Hi).
  rewrite Forall_forall in Hlt. specialize (Hlt i Hi).
  destruct (lookup_lt_is_Some_2 history i Hlt) as [h Hh].
  unfold hist_candidate. simpl. rewrite Hh. simpl. split.
  - eapply list_elem_of_lookup_2, Hh.
  - apply score_at_similarity, Hh.
Qed.

(** The outcome of a call depends on the world only through what the
    proposer answers. *)
Lemma predict_outcome_ext (current_input : string) (history : list string)
    (w1 w2 : World Vocab) :
  (generate (external w1) current_input).1 = (generate (external w2) current_input).1 ->
  (predict current_input history w1).1 = (predict current_input history w2).1.
Proof.
  destruct (generate (external w1) current_input) as [r1 n1] eqn:H1.
  destruct (generate (external w2) current_input) as [r2 n2] eqn:H2.
  simpl. intros <-. destruct r1 as [outputs|e].
  - destruct history as [|h0 history'].
    + rewrite (predict_empty_history _ _ _ _ H1), (predict_empty_history _ _ _ _ H2).
      reflexivity.
    + rewrite (predict_nonempty_history _ (h0 :: history') _ _ _ ltac:(discriminate) H1),
              (predict_nonempty_history _ (h0 :: history') _ _ _ ltac:(discriminate) H2).
      destruct (fit (h0 :: history')); reflexivity.
  - rewrite (predict_generate_raises _ _ _ _ _ H1), (predict_generate_raises _ _ _ _ _ H2).
    reflexivity.
Qed.

(** The engine sends nothing, records nothing and leaves the websocket as
    it is. *)
Lemma predict_frame (current_input : string) (history : list string)
    (w : World Vocab) :
  let w' := (predict current_input history w).2 in
  outbox w' = outbox w /\ connected w' = connected w /\
  command_history w' = command_history w.
Proof.
  destruct (generate (external w) current_input) as [[outputs|e] n] eqn:Hgen.
  - destruct history as [|h0 history'].
    + rewrite (predict_empty_history _ _ _ _ Hgen). simpl. auto.
    + rewrite (predict_nonempty_history _ (h0 :: history') _ _ _ ltac:(discriminate) Hgen).
      destruct (fit (h0 :: history')); simpl; auto.
  - rewrite (predict_generate_raises _ _ _ _ _ Hgen). simpl. auto.
Qed.

(** With an argsort that meets its contract, the engine returns whenever
    the proposer and the fit of the vectorizer do. *)
Lemma predict_returns (current_input : string) (history : list string)
    (w : World Vocab) (outputs : list string) (n : N) (v : Vocab) :
  argsort_spec argsort ->
  generate (external w) current_input = (Return outputs, n) ->
  fit history = Return v ->
  exists result w', predict current_input history w = (Return result, w').
Proof.
  intros Hspec Hgen Hfit. destruct history as [|h0 history'].
  - rewrite (predict_empty_history _ _ _ _ Hgen). eauto.
  - rewrite (predict_nonempty_history _ (h0 :: history') _ _ _ ltac:(discriminate) Hgen).
    rewrite Hfit. cbv zeta.
    set (scores := similarity_scores transform dot v current_input (h0 :: history')).
    destruct (history_loop_returns (h0 :: history') scores (last3 (argsort scores))
                (fold_left add_ml (ml_filter current_input outputs) ([], ∅)))
      as [st' ->]; [apply similarity_scores_length| |eauto].
    eapply Forall_sublist_of; [apply last3_sublist|].
    destruct (Hspec scores) as [Hperm _].
    apply Forall_forall. intros i Hi. rewrite Hperm in Hi.
    apply elem_of_seq in Hi. unfold scores in Hi.
    rewrite similarity_scores_length in Hi. lia.
Qed.


(** Claim C5. When the proposer answers [outputs] and the call returns
    [result]: every output that begins with [current_input] is in the
    result with score 0.8, and no candidate of that command has another
    score, whatever its similarity; every candidate of the result is such
    an output, or else an entry of the history, so that an output that does
    not begin with [current_input] and is not in the history is not in the
    result; and [current_input] itself, when the proposer answers it, is
    kept. *)
Theorem predict_generative_candidates (current_input : string)
    (history : list string) (w w' : World Vocab) (outputs : list string)
    (n : N) (result : list Candidate) :
  generate (external w) current_input = (Return outputs, n) ->
  predict current_input history w = (Return result, w') ->
  (forall g, g ∈ outputs -> String.prefix current_input g = true ->
     mkCandidate g 0.8 ∈ result /\
     forall c, c ∈ result -> command c = g -> score c = 0.8%Q) /\
  (forall c, c ∈ result ->
     (command c ∈ outputs /\ String.prefix current_input (command c) = true /\
      score c = 0.8%Q) \/
     command c ∈ history) /\
  (forall g, g ∈ outputs -> String.prefix current_input g = false ->
     g ∉ history -> g ∉ map command result) /\
  (current_input ∈ outputs -> mkCandidate current_input 0.8 ∈ result).
Proof.
  intros Hgen Hrun.
  assert (Hmain :
    (forall c, c ∈ generative_part current_input outputs -> c ∈ result) /\
    (forall c, c ∈ result ->
       c ∈ generative_part current_input outputs \/
       (command c ∈ history /\
        command c ∉ map command (generative_part current_input outputs)))).
  { destruct history as [|h0 history'].
    - rewrite (predict_empty_history _ _ _ _ Hgen) in Hrun.
      injection Hrun as <- _.
      assert (Heq : forall c,
                c ∈ map (fun pred => mkCandidate pred ml_score)
                        (ml_filter current_input outputs) <->
                c ∈ generative_part current_input outputs).
      { intros c. rewrite elem_of_generative_part, list_elem_of_fmap. split.
        - intros (p & -> & Hp). apply elem_of_ml_filter in Hp as [H1 H2].
          simpl. auto.
        - intros (H1 & H2 & H3). exists (command c). split.
          + destruct c as [cc cs]. simpl in *. subst cs. reflexivity.
          + apply elem_of_ml_filter. auto. }
      split; intros c Hc; [apply Heq, Hc|left; apply Heq, Hc].
    - destruct (predict_nonempty_inv _ (h0 :: history') _ _ _ _ _
                  ltac:(discriminate) Hgen Hrun)
        as (v & kept & _ & _ & _ & Hlt & Hres & Hnd & _).
      cbv zeta in *. subst result. split.
      + intros c Hc. apply elem_of_app. auto.
      + intros c Hc. apply elem_of_app in Hc as [Hc|Hc]; [auto|]. right.
        destruct (elem_of_history_part _ _ _ _ _ Hlt Hc) as [Hin _].
        split; [exact Hin|].
        rewrite map_app in Hnd. apply NoDup_app in Hnd as (_ & Hdisj & _).
        intros Hg. apply (Hdisj _ Hg). apply list_elem_of_fmap. eauto. }
  destruct Hmain as [Hsub Hsplit].
  assert (Hkeep : forall g, g ∈ outputs -> String.prefix current_input g = true ->
            mkCandidate g 0.8 ∈ result).
  { intros g Hg Hp. apply Hsub, elem_of_generative_part. simpl. auto. }
  repeat split.
  - apply Hkeep; assumption.
  - intros c Hc Hcmd.
    destruct (Hsplit c Hc) as [Hgp|[_ Hout]].
    + apply elem_of_generative_part in Hgp. tauto.
    + exfalso. apply Hout. apply list_elem_of_fmap.
      exists (mkCandidate g ml_score). split; [simpl; auto|].
      apply elem_of_generative_part. simpl. auto.
  - intros c Hc. destruct (Hsplit c Hc) as [Hgp|[Hin _]]; [|auto].
    left. apply elem_of_generative_part, Hgp.
  - intros g Hg Hp Hnh Hin. apply list_elem_of_fmap in Hin as (c & -> & Hc).
    destruct (Hsplit c Hc) as [Hgp|[Hin _]]; [|auto].
    apply elem_of_generative_part in Hgp as (_ & Hp' & _). congruence.
  - intros Hin. apply Hkeep; [exact Hin|apply prefix_refl].
Qed.

(** Claim C6. On an empty history the call returns exactly the outputs of
    the proposer that begin with [current_input], in their order, each
    with score 0.8 (or the exception of the proposer); the only library
    call it makes is the one to the proposer and the fitted state of the
    vectorizer is left as it was, whatever [fit], [transform], [dot] and
    [argsort] would do. *)
Theorem predict_empty_history_generative_only (current_input : string)
    (w : World Vocab) :
  exists w' : World Vocab,
    predict current_input [] w
    = (match (generate (external w) current_input).1 with
       | Return outputs =>
           Return (map (fun pred => mkCandidate pred 0.8)
                       (List.filter (fun decoded => String.prefix current_input decoded)
                                    outputs))
       | Raise e => Raise e
       end, w') /\
    trace w' = trace w ++ [CallGenerate current_input] /\
    vocabulary w' = vocabulary w.
Proof.
  destruct (generate (external w) current_input) as [[outputs|e] n] eqn:Hgen.
  - rewrite (predict_empty_history _ _ _ _ Hgen). eexists. split; [reflexivity|].
    simpl. auto.
  - rewrite (predict_generate_raises _ _ _ _ _ Hgen). eexists.
    split; [reflexivity|]. simpl. auto.
Qed.

(** Claim C9. When the answer of the proposer does not depend on the state
    of the external world (a deterministic stub), a second call with the
    same arguments, made in the world the first call left behind, has the
    outcome of the first: the same ordered candidates, or the same
    exception. *)
Theorem predict_deterministic (current_input : string) (history : list string)
    (w : World Vocab) :
  (forall (n1 n2 : N) (s : string), (generate n1 s).1 = (generate n2 s).1) ->
  (predict current_input history (predict current_input history w).2).1
  = (predict current_input history w).1.
Proof.
  intros Hdet. apply predict_outcome_ext, Hdet.
Qed.

(** Claim C10. On a non-empty history a returning call appends at most
    three history candidates after the generative ones; and when the
    history has three entries or fewer, every entry is in the result, as a
    generative candidate or as a history candidate with its similarity for
    score, however small: an entry of similarity 0 is appended with
    score 0. *)
Theorem predict_history_at_most_three (current_input : string)
    (history : list string) (w w' : World Vocab) (outputs : list string)
    (n : N) (result : list Candidate) :
  argsort_spec argsort ->
  history <> [] ->
  generate (external w) current_input = (Return outputs, n) ->
  predict current_input history w = (Return result, w') ->
  exists (v : Vocab) (hist : list Candidate),
    fit history = Return v /\
    result = generative_part current_input outputs ++ hist /\
    length hist <= 3 /\
    (length history <= 3 ->
     forall h, h ∈ history ->
       h ∈ map command (generative_part current_input outputs) \/
       mkCandidate h (similarity transform dot v current_input h) ∈ hist).
Proof.
  intros Hspec Hne Hgen Hrun.
  destruct (predict_nonempty_inv _ _ _ _ _ _ _ Hne Hgen Hrun)
    as (v & kept & Hfit & _ & Hsub & Hlt & Hres & _ & Hvis).
  cbv zeta in *.
  set (scores := similarity_scores transform dot v current_input history) in *.
  exists v, (map (hist_candidate history scores) kept).
  split; [exact Hfit|]. split; [exact Hres|]. split.
  - rewrite length_map. apply sublist_length in Hsub.
    pose proof (last3_length (argsort scores)). lia.
  - intros Hshort h Hh.
    destruct (Hspec scores) as [Hperm _].
    apply list_elem_of_lookup in Hh as [i Hi].
    assert (Hin : i ∈ last3 (argsort scores)).
    { rewrite last3_short.
      - rewrite Hperm. apply elem_of_seq. unfold scores.
        rewrite similarity_scores_length. apply lookup_lt_Some in Hi. lia.
      - rewrite (Permutation_length Hperm), length_seq. unfold scores.
        rewrite similarity_scores_length. exact Hshort. }
    destruct (Hvis i Hin) as (h' & Hh' & Hres').
    rewrite Hi in Hh'. injection Hh' as <-.
    rewrite Hres, map_app in Hres'. apply elem_of_app in Hres' as [Hl|Hr]; [auto|].
    right. apply list_elem_of_fmap in Hr as (c & -> & Hc).
    destruct (elem_of_history_part _ _ _ _ _ Hlt Hc) as [_ Hscore].
    rewrite <- Hscore. destruct c; exact Hc.
Qed.

(** On a non-empty history no command is returned twice. *)
Theorem predict_nonempty_history_unique (current_input : string)
    (history : list string) (w w' : World Vocab) (result : list Candidate) :
  history <> [] ->
  predict current_input history w = (Return result, w') ->
  NoDup (map command result).
Proof.
  intros Hne Hrun.
  destruct (generate (external w) current_input) as [[outputs|e] n] eqn:Hgen.
  - destruct (predict_nonempty_inv _ _ _ _ _ _ _ Hne Hgen Hrun)
      as (v & kept & _ & _ & _ & _ & _ & Hnd & _). exact Hnd.
  - rewrite (predict_generate_raises _ _ _ _ _ Hgen) in Hrun. discriminate.
Qed.

End Engine.

(** ** The insertion argsort meets the contract of np.argsort *)

Lemma insert_index_perm (scores : list Q) (i : nat) (sorted : list nat) :
  Permutation (Stub.insert_index scores i sorted) (i :: sorted).
Proof.
  induction sorted as [|j rest IH]; simpl; [reflexivity|].
  destruct (Qle_bool (score_at scores j) (score_at scores i)); [|reflexivity].
  rewrite IH. apply perm_swap.
Qed.

Lemma insert_index_sorted (scores : list Q) (i : nat) (sorted : list nat) :
  StronglySorted (fun a b => (score_at scores a <= score_at scores b)%Q) sorted ->
  StronglySorted (fun a b => (score_at scores a <= score_at scores b)%Q)
                 (Stub.insert_index scores i sorted).
Proof.
  induction sorted as [|j rest IH]; intros Hs; simpl.
  - repeat constructor.
  - inversion Hs as [|? ? Hrest Hall]; subst.
    destruct (Qle_bool (score_at scores j) (score_at scores i)) eqn:Hle.
    + constructor; [apply IH, Hrest|].
      rewrite (insert_index_perm scores i rest).
      constructor; [apply Qle_bool_iff, Hle|exact Hall].
    + assert (Hlt : (score_at scores i < score_at scores j)%Q).
      { apply Qnot_le_lt. intros H. apply Qle_bool_iff in H. congruence. }
      constructor; [exact Hs|]. constructor; [apply Qlt_le_weak, Hlt|].
      eapply Forall_impl; [exact Hall|]. simpl. intros k Hk.
      eapply Qle_trans; [apply Qlt_le_weak, Hlt|exact Hk].
Qed.

Lemma fold_insert_index (scores : list Q) (idxs acc : list nat) :
  StronglySorted (fun a b => (score_at scores a <= score_at scores b)%Q) acc ->
  let out := fold_left (fun sorted i => Stub.insert_index scores i sorted) idxs acc in
  Permutation out (idxs ++ acc) /\
  StronglySorted (fun a b => (score_at scores a <= score_at scores b)%Q) out.
Proof.
  revert acc. induction idxs as [|i idxs IH]; intros acc Hs; simpl.
  - split; [reflexivity|exact Hs].
  - destruct (IH _ (insert_index_sorted scores i acc Hs)) as [Hperm Hsorted].
    split; [|exact Hsorted].
    rewrite Hperm, insert_index_perm. symmetry. apply Permutation_middle.
Qed.

Lemma stub_argsort_spec : argsort_spec Stub.argsort.
Proof.
  intros scores. unfold Stub.argsort.
  destruct (fold_insert_index scores (seq 0 (length scores)) [])
    as [Hperm Hsorted]; [constructor|].
  split; [|exact Hsorted]. rewrite Hperm, app_nil_r. reflexivity.
Qed.

(** ** The session *)

Section Session.

Context {Vocab Vec : Type}.
Variable generate : N -> string -> outcome (list string) * N.
Variable fit : list string -> outcome Vocab.
Variable transform : Vocab -> string -> Vec.
Variable dot : Vec -> Vec -> Q.
Variable argsort : list Q -> list nat.
Variable sqlite_insert : N -> string -> string -> option string * N.

Abbreviation predict := (predict_next_command generate fit transform dot argsort).
Abbreviation record := (record_command (Vocab := Vocab) sqlite_insert).
Abbreviation handle :=
  (handle_message generate fit transform dot argsort sqlite_insert).
Abbreviation handle_run :=
  (handle_all generate fit transform dot argsort sqlite_insert).
Abbreviation loop :=
  (receive_loop generate fit transform dot argsort sqlite_insert).
Abbreviation endpoint :=
  (websocket_endpoint generate fit transform dot argsort sqlite_insert).

(** The three ways through the body of the loop for a decoded object. *)
Lemma handle_predict (r : Request) (current_input : string) (w : World Vocab) :
  req_type r = Some "predict" ->
  req_current_input r = Some current_input ->
  handle (Object r) w
  = match predict current_input (default [] (req_history r)) w with
    | (Return predictions, w1) => send_json (Predictions predictions) w1
    | (Raise e, w1) => (Raise e, w1)
    end.
Proof.
  intros Hty Hci. unfold handle_message, bind, json_loads, subscript, get, ret.
  rewrite Hty. simpl. rewrite Hci. reflexivity.
Qed.

Lemma handle_record (r : Request) (cmd : string) (w : World Vocab) :
  req_type r = Some "record" ->
  req_command r = Some cmd ->
  handle (Object r) w
  = match record cmd (default EmptyString (req_context r)) w with
    | (Return _, w1) => send_json Recorded w1
    | (Raise e, w1) => (Raise e, w1)
    end.
Proof.
  intros Hty Hcmd. unfold handle_message, bind, json_loads, subscript, get, ret.
  rewrite Hty. simpl. rewrite Hcmd. reflexivity.
Qed.

Lemma handle_other_type (r : Request) (ty : string) (w : World Vocab) :
  req_type r = Some ty -> ty <> "predict" -> ty <> "record" ->
  handle (Object r) w = (Return tt, w).
Proof.
  intros Hty Hp Hr. unfold handle_message, bind, json_loads, subscript, get, ret.
  rewrite Hty. simpl.
  apply String.eqb_neq in Hp, Hr. rewrite Hp, Hr. reflexivity.
Qed.

Lemma record_connected (cmd ctx : string) (w : World Vocab) :
  connected (record cmd ctx w).2 = connected w.
Proof.
  unfold record_command. destruct (sqlite_insert _ _ _) as [[e|] n]; reflexivity.
Qed.

Lemma send_json_connected (env : Envelope) (w : World Vocab) :
  connected (send_json env w).2 = connected w.
Proof. unfold send_json. destruct (connected w) eqn:H; simpl; auto. Qed.

(** The body of the loop never closes the websocket. *)
Lemma handle_connected (data : Frame) (w : World Vocab) :
  connected (handle data w).2 = connected w.
Proof.
  destruct data as [e|e|r]; try reflexivity.
  destruct (req_type r) as [ty|] eqn:Hty.
  - destruct (String.eqb ty "predict") eqn:Hp.
    + apply String.eqb_eq in Hp. subst ty.
      destruct (req_current_input r) as [ci|] eqn:Hci.
      * rewrite (handle_predict r ci w Hty Hci).
        pose proof (predict_frame generate fit transform dot argsort ci
                      (default [] (req_history r)) w) as (_ & Hc & _).
        destruct (predict ci (default [] (req_history r)) w) as [[preds|e] w1];
          simpl in *; [|exact Hc].
        rewrite send_json_connected. exact Hc.
      * unfold handle_message, bind, json_loads, subscript, get, ret, raise.
        rewrite Hty. simpl. rewrite Hci. reflexivity.
    + destruct (String.eqb ty "record") eqn:Hr.
      * apply String.eqb_eq in Hr. subst ty.
        destruct (req_command r) as [cmd|] eqn:Hcmd.
        -- rewrite (handle_record r cmd w Hty Hcmd).
           pose proof (record_connected cmd (default EmptyString (req_context r)) w) as Hc.
           destruct (record cmd (default EmptyString (req_context r)) w) as [[[]|e] w1];
             simpl in *; [|exact Hc].
           rewrite send_json_connected. exact Hc.
        -- unfold handle_message, bind, json_loads, subscript, get, ret, raise.
           rewrite Hty. simpl. rewrite Hcmd. reflexivity.
      * apply String.eqb_neq in Hp, Hr.
        rewrite (handle_other_type r ty w Hty Hp Hr). reflexivity.
  - unfold handle_message, bind, json_loads, subscript, get, ret, raise.
    rewrite Hty. reflexivity.
Qed.

Lemma handle_run_connected (frames : list Frame) (w : World Vocab) :
  connected (handle_run frames w).2 = connected w.
Proof.
  revert w. induction frames as [|data rest IH]; intros w; simpl; [reflexivity|].
  unfold bind. pose proof (handle_connected data w) as Hc.
  destruct (handle data w) as [[[]|e] w1]; simpl in *; [|exact Hc].
  rewrite IH. exact Hc.
Qed.

(** The loop over [pre ++ rest] is the loop over [rest] once the frames of
    [pre] are dealt with, unless one of them raises. *)
Lemma receive_loop_app (pre rest : list Frame) (w : World Vocab) :
  loop (pre ++ rest) w
  = match handle_run pre w with
    | (Return _, w1) => loop rest w1
    | (Raise e, w1) => (Raise e, w1)
    end.
Proof.
  revert w. induction pre as [|data pre IH]; intros w; simpl; [reflexivity|].
  unfold bind. destruct (handle data w) as [[[]|e] w1]; [apply IH|reflexivity].
Qed.

(** The endpoint at the first frame whose handling raises. *)
Lemma endpoint_first_exception (pre rest : list Frame) (data : Frame)
    (w w1 w2 : World Vocab) (e : string) :
  connected w = true ->
  handle_run pre w = (Return tt, w1) ->
  handle data w1 = (Raise e, w2) ->
  endpoint (pre ++ data :: rest) w
  = (Return tt, set_outbox (outbox w2 ++ [Error e]) w2).
Proof.
  intros Hc Hpre Hdata. unfold websocket_endpoint, try_except.
  rewrite receive_loop_app, Hpre. simpl. unfold bind. rewrite Hdata.
  unfold send_json.
  pose proof (handle_run_connected pre w) as H1. rewrite Hpre in H1.
  pose proof (handle_connected data w1) as H2. rewrite Hdata in H2.
  simpl in *. rewrite H2, H1, Hc. reflexivity.
Qed.

(** Nothing is sent for a frame whose handling raises. *)
Lemma handle_raise_outbox (data : Frame) (w w' : World Vocab) (e : string) :
  handle data w = (Raise e, w') -> outbox w' = outbox w.
Proof.
  assert (Hsend : forall env (w0 w1 : World Vocab) e0,
            send_json env w0 = (Raise e0, w1) -> outbox w1 = outbox w0).
  { intros env w0 w1 e0. unfold send_json.
    destruct (connected w0); intros H; [discriminate|].
    injection H as _ <-. reflexivity. }
  destruct data as [e0|e0|r];
    [intros H; injection H as _ <-; reflexivity ..|].
  destruct (req_type r) as [ty|] eqn:Hty.
  - destruct (String.eqb ty "predict") eqn:Hp.
    + apply String.eqb_eq in Hp. subst ty.
      destruct (req_current_input r) as [ci|] eqn:Hci.
      * rewrite (handle_predict r ci w Hty Hci).
        pose proof (predict_frame generate fit transform dot argsort ci
                      (default [] (req_history r)) w) as (Ho & _ & _).
        destruct (predict ci (default [] (req_history r)) w) as [[preds|e1] w1];
          simpl in *.
        -- intros H. rewrite (Hsend _ _ _ _ H). exact Ho.
        -- intros H. injection H as _ <-. exact Ho.
      * unfold handle_message, bind, json_loads, subscript, get, ret, raise.
        rewrite Hty. simpl. rewrite Hci. intros H. injection H as _ <-. reflexivity.
    + destruct (String.eqb ty "record") eqn:Hr.
      * apply String.eqb_eq in Hr. subst ty.
        destruct (req_command r) as [cmd|] eqn:Hcmd.
        -- rewrite (handle_record r cmd w Hty Hcmd). unfold record_command.
           destruct (sqlite_insert _ _ _) as [[e1|] n]; simpl.
           ++ intros H. injection H as _ <-. reflexivity.
           ++ intros H. rewrite (Hsend _ _ _ _ H). reflexivity.
        -- unfold handle_message, bind, json_loads, subscript, get, ret, raise.
           rewrite Hty. simpl. rewrite Hcmd. intros H. injection H as _ <-.
           reflexivity.
      * apply String.eqb_neq in Hp, Hr.
        rewrite (handle_other_type r ty w Hty Hp Hr). discriminate.
  - unfold handle_message, bind, json_loads, subscript, get, ret, raise.
    rewrite Hty. intros H. injection H as _ <-. reflexivity.
Qed.

(** Claim C3 as the code has it. When the proposer raises, the engine
    raises the same exception at once, with no call to the vectorizer and
    no prediction drawn from the history; the session answers the predict
    request with one error envelope carrying the message of the exception
    and handles no further frame. *)
Theorem predict_failure_propagates (current_input : string)
    (history : list string) (w : World Vocab) (e : string) (n : N) :
  generate (external w) current_input = (Raise e, n) ->
  let w1 := set_external n (log (CallGenerate current_input) w) in
  predict current_input history w = (Raise e, w1) /\
  forall (r : Request) (rest : list Frame),
    connected w = true ->
    req_type r = Some "predict" ->
    req_current_input r = Some current_input ->
    endpoint (Object r :: rest) w
    = (Return tt, set_outbox (outbox w ++ [Error e]) w1).
Proof.
  intros Hgen w1. split.
  - apply predict_generate_raises, Hgen.
  - intros r rest Hc Hty Hci.
    apply (endpoint_first_exception [] rest (Object r) w w w1 e Hc);
      [reflexivity|].
    rewrite (handle_predict r current_input w Hty Hci).
    rewrite (predict_generate_raises generate fit transform dot argsort
               _ _ _ _ _ Hgen).
    reflexivity.
Qed.

(** Claim C7. For a record request on an open websocket: when the INSERT
    raises, the endpoint sends one error envelope with the message of the
    exception, sends no recorded envelope and stores no row; when it does
    not, the row is appended and the recorded envelope follows; so a
    recorded envelope is only ever sent for a stored row. *)
Theorem record_failure_surfaced (r : Request) (cmd : string)
    (rest : list Frame) (w : World Vocab) :
  connected w = true ->
  req_type r = Some "record" ->
  req_command r = Some cmd ->
  let ctx := default EmptyString (req_context r) in
  (forall e n, sqlite_insert (external w) cmd ctx = (Some e, n) ->
     exists w', endpoint (Object r :: rest) w = (Return tt, w') /\
                outbox w' = outbox w ++ [Error e] /\
                command_history w' = command_history w) /\
  (forall n, sqlite_insert (external w) cmd ctx = (None, n) ->
     exists w', handle (Object r) w = (Return tt, w') /\
                outbox w' = outbox w ++ [Recorded] /\
                command_history w' = command_history w ++ [(cmd, ctx)]) /\
  (forall o w', handle (Object r) w = (o, w') ->
     outbox w' = outbox w ++ [Recorded] ->
     command_history w' = command_history w ++ [(cmd, ctx)]).
Proof.
  intros Hc Hty Hcmd ctx.
  assert (Hfail : forall e n, sqlite_insert (external w) cmd ctx = (Some e, n) ->
            handle (Object r) w
            = (Raise e, set_external n (log (CallInsert cmd ctx) w))).
  { intros e n Hins. rewrite (handle_record r cmd w Hty Hcmd).
    unfold record_command. fold ctx. rewrite Hins. reflexivity. }
  assert (Hgood : forall n, sqlite_insert (external w) cmd ctx = (None, n) ->
            handle (Object r) w
            = (Return tt,
               set_outbox (outbox w ++ [Recorded])
                 (set_external n
                    (set_command_history (command_history w ++ [(cmd, ctx)])
                       (log (CallInsert cmd ctx) w))))).
  { intros n Hins. rewrite (handle_record r cmd w Hty Hcmd).
    unfold record_command. fold ctx. rewrite Hins. unfold send_json. simpl.
    rewrite Hc. reflexivity. }
  repeat split.
  - intros e n Hins. eexists. split.
    + eapply (endpoint_first_exception [] rest (Object r) w w);
        [exact Hc|reflexivity|]. apply (Hfail e n Hins).
    + simpl. auto.
  - intros n Hins. eexists. split; [apply (Hgood n Hins)|]. simpl. auto.
  - intros o w' Hrun Hout.
    destruct (sqlite_insert (external w) cmd ctx) as [[e|] n] eqn:Hins.
    + rewrite (Hfail e n eq_refl) in Hrun. injection Hrun as <- <-.
      simpl in Hout. apply (f_equal length) in Hout.
      rewrite length_app in Hout. simpl in Hout. lia.
    + rewrite (Hgood n eq_refl) in Hrun. injection Hrun as <- <-. reflexivity.
Qed.

(** Claim C8 as the code has it. When the frames of [pre] are handled
    without an exception and the handling of the next frame raises, the
    endpoint sends exactly one error envelope with the message of that
    exception and returns: the frames that follow are never handled,
    whatever they are. *)
Theorem session_ends_at_first_exception (pre : list Frame) (data : Frame)
    (w w1 w2 : World Vocab) (e : string) :
  connected w = true ->
  handle_run pre w = (Return tt, w1) ->
  handle data w1 = (Raise e, w2) ->
  exists w' : World Vocab,
    outbox w' = outbox w1 ++ [Error e] /\
    command_history w' = command_history w2 /\
    trace w' = trace w2 /\
    forall rest : list Frame,
      endpoint (pre ++ data :: rest) w = (Return tt, w').
Proof.
  intros Hc Hpre Hdata.
  exists (set_outbox (outbox w2 ++ [Error e]) w2). simpl. split.
  { rewrite (handle_raise_outbox data w1 w2 e Hdata). reflexivity. }
  repeat split.
  intros rest. eapply endpoint_first_exception; eassumption.
Qed.

(** Claim C4, the code at the failing input. A request whose type is
    "unknown" is handled without an exception and without a reply: the
    world, and with it the outbox, is left as it was, and the loop goes on
    to the next frame. *)
Theorem unknown_type_gets_no_reply (w : World Vocab) :
  handle (Object (mkRequest (Some "unknown") None None None None)) w
  = (Return tt, w).
Proof. reflexivity. Qed.

End Session.

(** ** The claims on concrete runs *)



(** Claim C2, the code at the failing input. On an empty history, with a
    proposer whose three answers to "ls" are "ls -la", "ls -la" and "ls",
    the engine returns two candidates with the command "ls -la". *)
Theorem predict_empty_history_duplicates :
  exists result : list Candidate,
    (Stub.predict (Return ["ls -la"; "ls -la"; "ls"]) [] "ls" [] Stub.fresh).1
    = Return result /\
    result = [mkCandidate "ls -la" 0.8; mkCandidate "ls -la" 0.8;
              mkCandidate "ls" 0.8] /\
    ~ NoDup (map command result).
Proof.
  eexists. split; [vm_compute; reflexivity|]. split; [reflexivity|].
  intros Hnd. apply NoDup_cons in Hnd as [Hnin _]. apply Hnin. simpl.
  apply list_elem_of_here.
Qed.

(** Claim C3, as stated, fails. In the scenario with a proposer that
    raises, the engine raises too; it does not return the predictions it
    draws from the history when the proposer answers nothing, and the
    session answers the predict request with an error envelope. *)
Lemma predict_failure_not_degraded :
  (Stub.predict (Raise "model failure") Scenario.table Scenario.current_input
                Scenario.history Stub.fresh).1
  = Raise "model failure" /\
  (Stub.predict (Return []) Scenario.table Scenario.current_input
                Scenario.history Stub.fresh).1
  = Return Scenario.history_only /\
  outbox (Stub.session (Raise "model failure") Scenario.table Stub.insert_ok
                       [Object Scenario.predict_request] Stub.fresh).2
  = [Error "model failure"].
Proof. repeat split; vm_compute; reflexivity. Qed.

Lemma predict_failure_propagates_witness :
  Stub.generate (Raise "model failure") (external Stub.fresh) Scenario.current_input
  = (Raise "model failure", 0%N) /\
  Stub.predict (Raise "model failure") Scenario.table Scenario.current_input
               Scenario.history Stub.fresh
  = (Raise "model failure",
     set_external 0%N (log (CallGenerate Scenario.current_input) Stub.fresh)).
Proof.
  split; [reflexivity|].
  apply (predict_failure_propagates
           (Stub.generate (Raise "model failure")) Stub.fit Stub.transform
           (Stub.dot Scenario.table) Stub.argsort Stub.insert_ok
           Scenario.current_input Scenario.history Stub.fresh
           "model failure" 0%N).
  reflexivity.
Defined.

Lemma predict_generative_candidates_witness :
  mkCandidate "git status" 0.8 ∈ Scenario.result /\
  "python" ∉ map command Scenario.result.
Proof.
  destruct (predict_generative_candidates
              (Stub.generate (Return Scenario.outputs)) Stub.fit Stub.transform
              (Stub.dot Scenario.table) Stub.argsort
              Scenario.current_input Scenario.history Stub.fresh
              (Stub.predict (Return Scenario.outputs) Scenario.table
                            Scenario.current_input Scenario.history Stub.fresh).2
              Scenario.outputs 0%N Scenario.result)
    as (Hkept & _ & Hdropped & _).
  - reflexivity.
  - vm_compute. reflexivity.
  - split.
    + apply Hkept; [|reflexivity]. apply list_elem_of_here.
    + apply Hdropped; [|reflexivity|].
      * apply list_elem_of_further, list_elem_of_here.
      * intros Hin. apply list_elem_of_In in Hin. simpl in Hin.
        repeat (destruct Hin as [Hin|Hin]; [discriminate|]). exact Hin.
Defined.

Lemma record_failure_surfaced_witness :
  exists w',
    Stub.session (Return []) [] (Stub.insert_fails "disk I/O error")
                 [Object Scenario.record_request] Stub.fresh
    = (Return tt, w') /\
    outbox w' = [Error "disk I/O error"] /\
    command_history w' = [].
Proof.
  destruct (record_failure_surfaced
              (Stub.generate (Return [])) Stub.fit Stub.transform (Stub.dot [])
              Stub.argsort (Stub.insert_fails "disk I/O error")
              Scenario.record_request "ls -la" [] Stub.fresh)
    as (Hfail & _ & _); try reflexivity.
  exact (Hfail "disk I/O error" 0%N eq_refl).
Defined.

(** Claim C8, as stated, fails. A frame that cannot be decoded, followed
    by a valid record request: the session sends the error envelope for
    the first and nothing else; the request that follows is neither
    acknowledged nor stored, although the same request alone is. *)
Lemma session_does_not_continue :
  let w1 := (Stub.session (Return []) [] Stub.insert_ok
               [Undecodable "Expecting value"; Object Scenario.record_request]
               Stub.fresh).2 in
  let w2 := (Stub.session (Return []) [] Stub.insert_ok
               [Object Scenario.record_request] Stub.fresh).2 in
  outbox w1 = [Error "Expecting value"] /\ command_history w1 = [] /\
  outbox w2 = [Recorded] /\ command_history w2 = [("ls -la", "ctx")].
Proof. repeat split; vm_compute; reflexivity. Qed.

Lemma session_ends_at_first_exception_witness :
  exists w',
    outbox w' = [Predictions Scenario.result; Error "Expecting value"] /\
    forall rest,
      Stub.session (Return Scenario.outputs) Scenario.table Stub.insert_ok
                   ([Object Scenario.predict_request]
                    ++ Undecodable "Expecting value" :: rest) Stub.fresh
      = (Return tt, w').
Proof.
  destruct (session_ends_at_first_exception
              (Stub.generate (Return Scenario.outputs)) Stub.fit Stub.transform
              (Stub.dot Scenario.table) Stub.argsort Stub.insert_ok
              [Object Scenario.predict_request] (Undecodable "Expecting value")
              Stub.fresh
              (handle_all (Stub.generate (Return Scenario.outputs)) Stub.fit
                 Stub.transform (Stub.dot Scenario.table) Stub.argsort
                 Stub.insert_ok [Object Scenario.predict_request] Stub.fresh).2
              (handle_all (Stub.generate (Return Scenario.outputs)) Stub.fit
                 Stub.transform (Stub.dot Scenario.table) Stub.argsort
                 Stub.insert_ok [Object Scenario.predict_request] Stub.fresh).2
              "Expecting value")
    as (w' & Hout & _ & _ & Hrun).
  - reflexivity.
  - vm_compute. reflexivity.
  - vm_compute. reflexivity.
  - exists w'. split; [|exact Hrun]. rewrite Hout. vm_compute. reflexivity.
Defined.

Lemma predict_deterministic_witness :
  (forall (n1 n2 : N) (s : string),
     (Stub.generate (Return Scenario.outputs) n1 s).1
     = (Stub.generate (Return Scenario.outputs) n2 s).1) /\
  (Stub.predict (Return Scenario.outputs) Scenario.table
     Scenario.current_input Scenario.history
     (Stub.predict (Return Scenario.outputs) Scenario.table
        Scenario.current_input Scenario.history Stub.fresh).2).1
  = (Stub.predict (Return Scenario.outputs) Scenario.table
       Scenario.current_input Scenario.history Stub.fresh).1.
Proof.
  split; [reflexivity|].
  apply (predict_deterministic
           (Stub.generate (Return Scenario.outputs)) Stub.fit Stub.transform
           (Stub.dot Scenario.table) Stub.argsort).
  reflexivity.
Defined.

Lemma predict_history_at_most_three_witness :
  exists (v : list string) (hist : list Candidate),
    Stub.fit Scenario.history = Return v /\
    Scenario.result
    = generative_part Scenario.current_input Scenario.outputs ++ hist /\
    length hist <= 3 /\
    (length Scenario.history <= 3 ->
     forall h, h ∈ Scenario.history ->
       h ∈ map command (generative_part Scenario.current_input Scenario.outputs) \/
       mkCandidate h (similarity Stub.transform (Stub.dot Scenario.table) v
                                 Scenario.current_input h) ∈ hist).
Proof.
  apply (predict_history_at_most_three
           (Stub.generate (Return Scenario.outputs)) Stub.fit Stub.transform
           (Stub.dot Scenario.table) Stub.argsort
           Scenario.current_input Scenario.history Stub.fresh
           (Stub.predict (Return Scenario.outputs) Scenario.table
                         Scenario.current_input Scenario.history Stub.fresh).2
           Scenario.outputs 0%N Scenario.result).
  - exact stub_argsort_spec.
  - discriminate.
  - reflexivity.
  - vm_compute. reflexivity.
Defined.

(** * Further properties of the engine *)

(** ** The first loop keeps first occurrences *)

Lemma filter_filter_absorb {A : Type} (P Q : A -> bool) (l : list A) :
  (forall y, P y = true -> Q y = true) ->
  List.filter P (List.filter Q l) = List.filter P l.
Proof.
  intros HPQ. induction l as [|x l IH]; simpl; [reflexivity|].
  destruct (Q x) eqn:HQ; simpl.
  - rewrite IH. reflexivity.
  - destruct (P x) eqn:HP; [|exact IH]. rewrite (HPQ x HP) in HQ. discriminate.
Qed.

Lemma filter_filter_comm {A : Type} (P Q : A -> bool) (l : list A) :
  List.filter P (List.filter Q l) = List.filter Q (List.filter P l).
Proof.
  induction l as [|x l IH]; simpl; [reflexivity|].
  destruct (P x) eqn:HP, (Q x) eqn:HQ; simpl; rewrite ?HP, ?HQ, IH; reflexivity.
Qed.

Lemma keep_first_filter (P : string -> bool) (l : list string) :
  keep_first (List.filter P l) = List.filter P (keep_first l).
Proof.
  induction l as [|x l IH]; simpl; [reflexivity|].
  destruct (P x) eqn:HP; simpl.
  - rewrite IH. f_equal. apply filter_filter_comm.
  - rewrite IH. symmetry. apply filter_filter_absorb.
    intros y Hy. apply negb_true_iff, String.eqb_neq. intros ->. congruence.
Qed.

Lemma keep_first_length (l : list string) : length (keep_first l) <= length l.
Proof.
  induction l as [|x l IH]; simpl; [lia|].
  pose proof (List.filter_length_le (fun y => negb (String.eqb x y)) (keep_first l)).
  lia.
Qed.

Lemma fold_add_ml_keep_first (preds : list string) (acc : list Candidate)
    (seen : gset string) :
  (fold_left add_ml preds (acc, seen)).1
  = acc ++ map (fun pred => mkCandidate pred ml_score)
               (keep_first (List.filter (fun x => bool_decide (x ∉ seen)) preds)).
Proof.
  revert acc seen. induction preds as [|x preds IH]; intros acc seen; simpl.
  - rewrite app_nil_r. reflexivity.
  - unfold add_ml at 2. simpl. destruct (decide (x ∈ seen)) as [Hin|Hnin].
    + rewrite bool_decide_eq_false_2 by auto. apply IH.
    + rewrite bool_decide_eq_true_2 by exact Hnin. simpl.
      rewrite IH, <- app_assoc. simpl. do 3 f_equal.
      rewrite <- keep_first_filter. f_equal.
      clear. induction preds as [|y preds IH]; simpl; [reflexivity|].
      destruct (decide (y ∈ seen)) as [Hy|Hy].
      * rewrite (bool_decide_eq_false_2 (y ∉ seen)) by auto.
        rewrite (bool_decide_eq_false_2 (y ∉ {[x]} ∪ seen)) by set_solver.
        exact IH.
      * rewrite (bool_decide_eq_true_2 (y ∉ seen)) by exact Hy. simpl.
        destruct (String.eqb x y) eqn:Hxy; simpl.
        -- apply String.eqb_eq in Hxy. subst y.
           rewrite (bool_decide_eq_false_2 (x ∉ {[x]} ∪ seen)) by set_solver.
           exact IH.
        -- apply String.eqb_neq in Hxy.
           rewrite (bool_decide_eq_true_2 (y ∉ {[x]} ∪ seen)).
           ++ rewrite IH. reflexivity.
           ++ intros Hu. apply elem_of_union in Hu as [Hu|Hu]; [|contradiction].
              apply elem_of_singleton in Hu. congruence.
Qed.

Lemma generative_part_keep_first (current_input : string) (outputs : list string) :
  generative_part current_input outputs
  = map (fun pred => mkCandidate pred ml_score)
        (keep_first (ml_filter current_input outputs)).
Proof.
  unfold generative_part. rewrite fold_add_ml_keep_first. simpl. do 2 f_equal.
  induction (ml_filter current_input outputs) as [|x l IH]; simpl; [reflexivity|].
  rewrite bool_decide_eq_true_2 by set_solver. rewrite IH. reflexivity.
Qed.

Section EngineMore.

Context {Vocab Vec : Type}.
Variable generate : N -> string -> outcome (list string) * N.
Variable fit : list string -> outcome Vocab.
Variable transform : Vocab -> string -> Vec.
Variable dot : Vec -> Vec -> Q.
Variable argsort : list Q -> list nat.

Abbreviation predict := (predict_next_command generate fit transform dot argsort).

(** X1. With an argsort that meets its contract, the engine raises exactly
    when the proposer raises, or, on a non-empty history, when the fit of
    the vectorizer raises, and it raises that very exception: the
    subscripts of the second loop are never out of range. *)
Theorem predict_raises_iff (current_input : string) (history : list string)
    (w : World Vocab) (e : string) :
  argsort_spec argsort ->
  (predict current_input history w).1 = Raise e <->
  (generate (external w) current_input).1 = Raise e \/
  ((exists outputs, (generate (external w) current_input).1 = Return outputs) /\
   history <> [] /\ fit history = Raise e).
Proof.
  intros Hspec.
  destruct (generate (external w) current_input) as [[outputs|e'] n] eqn:Hgen;
    simpl.
  - destruct history as [|h0 history'].
    + rewrite (predict_empty_history _ _ _ _ _ _ _ _ _ Hgen). simpl. split.
      * discriminate.
      * intros [H|(_ & H & _)]; [discriminate|contradiction].
    + destruct (fit (h0 :: history')) as [v|e''] eqn:Hfit.
      * destruct (predict_returns generate fit transform dot argsort
                    current_input (h0 :: history') w outputs n v Hspec Hgen Hfit)
          as (result & w' & ->). simpl. split.
        -- discriminate.
        -- intros [H|(_ & _ & H)]; discriminate.
      * rewrite (predict_nonempty_history generate fit transform dot argsort
                   _ (h0 :: history') _ _ _ ltac:(discriminate) Hgen), Hfit.
        simpl. split.
        -- intros H. right. split; [eauto|]. split; [discriminate|]. congruence.
        -- intros [H|(_ & _ & H)]; congruence.
  - rewrite (predict_generate_raises _ _ _ _ _ _ _ _ _ _ Hgen). simpl. split.
    + intros H. left. congruence.
    + intros [H|((outputs & H) & _)]; [congruence|discriminate].
Qed.

(** X2. On a non-empty history the result begins with one candidate of
    score 0.8 for each distinct output of the proposer that begins with
    [current_input], in the order of their first occurrence, and no command
    occurs twice in the whole result. *)
Theorem predict_generative_first_occurrence (current_input : string)
    (history : list string) (w w' : World Vocab) (outputs : list string)
    (n : N) (result : list Candidate) :
  history <> [] ->
  generate (external w) current_input = (Return outputs, n) ->
  predict current_input history w = (Return result, w') ->
  NoDup (map command result) /\
  exists hist : list Candidate,
    result
    = map (fun pred => mkCandidate pred 0.8)
          (keep_first
             (List.filter (fun decoded => String.prefix current_input decoded)
                          outputs))
      ++ hist.
Proof.
  intros Hne Hgen Hrun.
  destruct (predict_nonempty_inv _ _ _ _ _ _ _ _ _ _ _ _ Hne Hgen Hrun)
    as (v & kept & _ & _ & _ & _ & Hres & Hnd & _).
  split; [exact Hnd|]. eexists. rewrite Hres, generative_part_keep_first.
  reflexivity.
Qed.

(** X3. A call of the engine sends nothing on the websocket, leaves the
    websocket open or closed as it was and stores no row; the first library
    call it makes is the one to the proposer and it never calls the
    database. *)
Theorem predict_leaves_session_state (current_input : string)
    (history : list string) (w : World Vocab) :
  let w' := (predict current_input history w).2 in
  outbox w' = outbox w /\ connected w' = connected w /\
  command_history w' = command_history w /\
  exists calls : list Call,
    trace w' = trace w ++ CallGenerate current_input :: calls /\
    forall cmd ctx, CallInsert cmd ctx ∉ calls.
Proof.
  assert (Hnil : forall cmd ctx, CallInsert cmd ctx ∉ @nil Call).
  { intros cmd ctx H. inversion H. }
  destruct (generate (external w) current_input) as [[outputs|e] n] eqn:Hgen.
  - destruct history as [|h0 history'].
    + rewrite (predict_empty_history _ _ _ _ _ _ _ _ _ Hgen). simpl.
      repeat split; auto. exists []. auto.
    + rewrite (predict_nonempty_history generate fit transform dot argsort
                 _ (h0 :: history') _ _ _ ltac:(discriminate) Hgen).
      destruct (fit (h0 :: history')); simpl; repeat split; auto.
      * eexists. rewrite <- !app_assoc. simpl. split; [reflexivity|].
        intros cmd ctx H. apply list_elem_of_In in H. simpl in H.
        repeat (destruct H as [H|H]; [discriminate|]). exact H.
      * eexists. rewrite <- !app_assoc. simpl. split; [reflexivity|].
        intros cmd ctx H. apply list_elem_of_In in H. simpl in H.
        repeat (destruct H as [H|H]; [discriminate|]). exact H.
  - rewrite (predict_generate_raises _ _ _ _ _ _ _ _ _ _ Hgen). simpl.
    repeat split; auto. exists []. auto.
Qed.

(** X4. A returning call on a non-empty history leaves the shared
    vectorizer fitted on that history, whatever it was fitted on before,
    and has called, in this order, the proposer, the fit on the history,
    the transform of the input and the transform of the history. *)
Theorem predict_refits_vectorizer (current_input : string)
    (history : list string) (w w' : World Vocab) (result : list Candidate) :
  history <> [] ->
  predict current_input history w = (Return result, w') ->
  exists v : Vocab,
    fit history = Return v /\
    vocabulary w' = Some v /\
    trace w' = trace w ++ [CallGenerate current_input; CallFit history;
                           CallTransform [current_input]; CallTransform history].
Proof.
  intros Hne Hrun.
  destruct (generate (external w) current_input) as [[outputs|e] n] eqn:Hgen.
  - destruct (predict_nonempty_inv _ _ _ _ _ _ _ _ _ _ _ _ Hne Hgen Hrun)
      as (v & kept & Hfit & -> & _).
    exists v. split; [exact Hfit|]. split; [reflexivity|].
    simpl. rewrite <- !app_assoc. reflexivity.
  - rewrite (predict_generate_raises _ _ _ _ _ _ _ _ _ _ Hgen) in Hrun.
    discriminate.
Qed.

Lemma elem_of_sublist_of {A : Type} (k l : list A) (x : A) :
  k `sublist_of` l -> x ∈ k -> x ∈ l.
Proof.
  intros Hsub Hx.
  assert (Hall : Forall (fun y => y ∈ l) k).
  { eapply Forall_sublist_of; [exact Hsub|]. apply Forall_forall. auto. }
  rewrite Forall_forall in Hall. auto.
Qed.

(** The indices kept out of the last three of a sorted argsort score no
    more than the ones kept in. *)
Lemma last3_dominates (scores : list Q) (j k : nat) :
  argsort_spec argsort ->
  j < length scores ->
  j ∉ last3 (argsort scores) ->
  k ∈ last3 (argsort scores) ->
  (score_at scores j <= score_at scores k)%Q.
Proof.
  intros Hspec Hj Hout Hin. destruct (Hspec scores) as [Hperm Hsorted].
  assert (Hmem : j ∈ argsort scores).
  { rewrite Hperm. apply elem_of_seq. lia. }
  unfold last3 in *.
  rewrite <- (take_drop (length (argsort scores) - 3) (argsort scores)) in Hmem, Hsorted.
  apply elem_of_app in Hmem as [Hmem|Hmem]; [|contradiction].
  exact (StronglySorted_app_1_elem_of _ _ _ _ _ Hsorted Hmem Hin).
Qed.

(** X5. On a non-empty history, a history entry that is left out of the
    result is never more similar to the input than a history candidate
    that was appended. *)
Theorem predict_left_out_not_more_similar (current_input : string)
    (history : list string) (w w' : World Vocab) (outputs : list string)
    (n : N) (result : list Candidate) :
  argsort_spec argsort ->
  history <> [] ->
  generate (external w) current_input = (Return outputs, n) ->
  predict current_input history w = (Return result, w') ->
  exists (v : Vocab) (hist : list Candidate),
    fit history = Return v /\
    result = generative_part current_input outputs ++ hist /\
    forall c h,
      c ∈ hist -> h ∈ history -> h ∉ map command result ->
      (similarity transform dot v current_input h <= score c)%Q.
Proof.
  intros Hspec Hne Hgen Hrun.
  destruct (predict_nonempty_inv _ _ _ _ _ _ _ _ _ _ _ _ Hne Hgen Hrun)
    as (v & kept & Hfit & _ & Hsub & Hlt & Hres & _ & Hvis).
  cbv zeta in *.
  set (scores := similarity_scores transform dot v current_input history) in *.
  exists v, (map (hist_candidate history scores) kept).
  split; [exact Hfit|]. split; [exact Hres|].
  intros c h Hc Hh Hout.
  apply list_elem_of_fmap in Hc as (k & -> & Hk).
  apply list_elem_of_lookup in Hh as [j Hj].
  simpl. rewrite <- (score_at_similarity transform dot v current_input history j h Hj).
  fold scores. apply last3_dominates.
  - exact Hspec.
  - unfold scores. rewrite similarity_scores_length. eapply lookup_lt_Some, Hj.
  - intros Hin. destruct (Hvis j Hin) as (h' & Hh' & Hres').
    rewrite Hj in Hh'. injection Hh' as <-. contradiction.
  - eapply elem_of_sublist_of; eassumption.
Qed.

(** X6. On a non-empty history the result always holds a history entry
    that no other entry beats in similarity to the input, as a generative
    candidate or as a history candidate. *)
Theorem predict_contains_most_similar (current_input : string)
    (history : list string) (w w' : World Vocab) (outputs : list string)
    (n : N) (result : list Candidate) :
  argsort_spec argsort ->
  history <> [] ->
  generate (external w) current_input = (Return outputs, n) ->
  predict current_input history w = (Return result, w') ->
  exists (v : Vocab) (best : string),
    fit history = Return v /\
    best ∈ history /\
    best ∈ map command result /\
    forall h, h ∈ history ->
      (similarity transform dot v current_input h
       <= similarity transform dot v current_input best)%Q.
Proof.
  intros Hspec Hne Hgen Hrun.
  destruct (predict_nonempty_inv _ _ _ _ _ _ _ _ _ _ _ _ Hne Hgen Hrun)
    as (v & kept & Hfit & _ & _ & _ & _ & _ & Hvis).
  cbv zeta in *.
  set (scores := similarity_scores transform dot v current_input history) in *.
  destruct (Hspec scores) as [Hperm Hsorted].
  assert (Hlen : length (argsort scores) = length history).
  { rewrite (Permutation_length Hperm), length_seq. unfold scores.
    apply similarity_scores_length. }
  destruct (argsort scores) as [|k front _] eqn:Hargsort using rev_ind.
  { destruct history; [contradiction|discriminate]. }
  assert (Hk : k ∈ last3 (front ++ [k])).
  { unfold last3. rewrite length_app. simpl.
    rewrite drop_app_le by lia. apply elem_of_app. right. apply list_elem_of_here. }
  destruct (Hvis k Hk) as (best & Hbest & Hres).
  exists v, best. split; [exact Hfit|]. split.
  { eapply list_elem_of_lookup_2, Hbest. }
  split; [exact Hres|].
  intros h Hh. apply list_elem_of_lookup in Hh as [j Hj].
  rewrite <- (score_at_similarity transform dot v current_input history j h Hj).
  rewrite <- (score_at_similarity transform dot v current_input history k best Hbest).
  fold scores.
  assert (Hmem : j ∈ front ++ [k]).
  { rewrite Hperm. apply elem_of_seq. unfold scores.
    rewrite similarity_scores_length. apply lookup_lt_Some in Hj. lia. }
  apply elem_of_app in Hmem as [Hmem|Hmem].
  - exact (StronglySorted_app_1_elem_of _ _ _ _ _ Hsorted Hmem
             (list_elem_of_here k [])).
  - apply list_elem_of_singleton in Hmem. subst j. apply Qle_refl.
Qed.

(** X7. The result never has more candidates than the proposer gave
    outputs, plus three on a non-empty history. *)
Theorem predict_result_length (current_input : string) (history : list string)
    (w w' : World Vocab) (outputs : list string) (n : N)
    (result : list Candidate) :
  generate (external w) current_input = (Return outputs, n) ->
  predict current_input history w = (Return result, w') ->
  length result <= length outputs + 3 /\
  (history = [] -> length result <= length outputs).
Proof.
  intros Hgen Hrun.
  assert (Hfilter : length (ml_filter current_input outputs) <= length outputs).
  { apply List.filter_length_le. }
  destruct history as [|h0 history'].
  - rewrite (predict_empty_history _ _ _ _ _ _ _ _ _ Hgen) in Hrun.
    injection Hrun as <- _. rewrite length_map. split; [lia|]. intros _. lia.
  - destruct (predict_nonempty_inv _ _ _ _ _ _ (h0 :: history') _ _ _ _ _
                ltac:(discriminate) Hgen Hrun)
      as (v & kept & _ & _ & Hsub & _ & Hres & _ & _).
    cbv zeta in *. split; [|discriminate].
    rewrite Hres, length_app, generative_part_keep_first, !length_map.
    pose proof (keep_first_length (ml_filter current_input outputs)).
    apply sublist_length in Hsub.
    pose proof (last3_length
                  (argsort (similarity_scores transform dot v current_input
                              (h0 :: history')))).
    lia.
Qed.

(** X8. On the empty input and an empty history every output of the
    proposer is returned, in order, with score 0.8: every string begins
    with the empty string. *)
Theorem predict_empty_input_keeps_all (w : World Vocab)
    (outputs : list string) (n : N) :
  generate (external w) EmptyString = (Return outputs, n) ->
  (predict EmptyString [] w).1
  = Return (map (fun pred => mkCandidate pred 0.8) outputs).
Proof.
  intros Hgen. rewrite (predict_empty_history _ _ _ _ _ _ _ _ _ Hgen). simpl.
  do 2 f_equal. unfold ml_filter. clear Hgen.
  induction outputs as [|x l IH]; simpl; [reflexivity|].
  destruct x; simpl; rewrite IH; reflexivity.
Qed.

End EngineMore.

(** * Further properties of the session *)

Section SessionMore.

Context {Vocab Vec : Type}.
Variable generate : N -> string -> outcome (list string) * N.
Variable fit : list string -> outcome Vocab.
Variable transform : Vocab -> string -> Vec.
Variable dot : Vec -> Vec -> Q.
Variable argsort : list Q -> list nat.
Variable sqlite_insert : N -> string -> string -> option string * N.

Abbreviation predict := (predict_next_command generate fit transform dot argsort).
Abbreviation record := (record_command (Vocab := Vocab) sqlite_insert).
Abbreviation handle :=
  (handle_message generate fit transform dot argsort sqlite_insert).
Abbreviation handle_run :=
  (handle_all generate fit transform dot argsort sqlite_insert).
Abbreviation loop :=
  (receive_loop generate fit transform dot argsort sqlite_insert).
Abbreviation endpoint :=
  (websocket_endpoint generate fit transform dot argsort sqlite_insert).

(** ** Missing keys *)

Lemma handle_missing_type (r : Request) (w : World Vocab) :
  req_type r = None -> handle (Object r) w = (Raise "'type'", w).
Proof.
  intros Hty. unfold handle_message, bind, json_loads, subscript, ret, raise.
  rewrite Hty. reflexivity.
Qed.

Lemma handle_missing_current_input (r : Request) (w : World Vocab) :
  req_type r = Some "predict" -> req_current_input r = None ->
  handle (Object r) w = (Raise "'current_input'", w).
Proof.
  intros Hty Hci. unfold handle_message, bind, json_loads, subscript, ret, raise.
  rewrite Hty. simpl. rewrite Hci. reflexivity.
Qed.

Lemma handle_missing_command (r : Request) (w : World Vocab) :
  req_type r = Some "record" -> req_command r = None ->
  handle (Object r) w = (Raise "'command'", w).
Proof.
  intros Hty Hcmd. unfold handle_message, bind, json_loads, subscript, ret, raise.
  rewrite Hty. simpl. rewrite Hcmd. reflexivity.
Qed.

(** ** One frame *)

(** What a frame handled without an exception on an open websocket leaves
    behind: at most one envelope, never an error envelope, the row of a
    record request and a recorded envelope for it, and nothing else. *)
Lemma handle_return_spec (data : Frame) (w w' : World Vocab) :
  connected w = true ->
  handle data w = (Return tt, w') ->
  exists sent : list Envelope,
    outbox w' = outbox w ++ sent /\
    command_history w' = command_history w ++ recorded_row data /\
    length sent <= 1 /\
    List.filter is_error sent = [] /\
    length (List.filter is_recorded sent) = length (recorded_row data).
Proof.
  intros Hc. destruct data as [e0|e0|r]; try discriminate.
  destruct (req_type r) as [ty|] eqn:Hty;
    [|rewrite (handle_missing_type r w Hty); discriminate].
  destruct (String.eqb ty "predict") eqn:Hp.
  - apply String.eqb_eq in Hp. subst ty.
    assert (Hrow : recorded_row (Object r) = []).
    { simpl. rewrite Hty. destruct (req_command r); reflexivity. }
    rewrite Hrow. clear Hrow.
    destruct (req_current_input r) as [ci|] eqn:Hci;
      [|rewrite (handle_missing_current_input r w Hty Hci); discriminate].
    rewrite (handle_predict _ _ _ _ _ _ r ci w Hty Hci).
    pose proof (predict_frame generate fit transform dot argsort ci
                  (default [] (req_history r)) w) as (Ho & Hc' & Hh).
    destruct (predict ci (default [] (req_history r)) w) as [[preds|e1] w1];
      simpl in *; [|discriminate].
    unfold send_json. rewrite Hc', Hc. intros H. injection H as <-.
    exists [Predictions preds]. rewrite app_nil_r. simpl.
    rewrite Ho, Hh. auto.
  - destruct (String.eqb ty "record") eqn:Hr.
    + apply String.eqb_eq in Hr. subst ty.
      destruct (req_command r) as [cmd|] eqn:Hcmd;
        [|rewrite (handle_missing_command r w Hty Hcmd); discriminate].
      assert (Hrow : recorded_row (Object r)
                     = [(cmd, default EmptyString (req_context r))]).
      { simpl. rewrite Hty, Hcmd. reflexivity. }
      rewrite Hrow. clear Hrow.
      rewrite (handle_record _ _ _ _ _ _ r cmd w Hty Hcmd). unfold record_command.
      destruct (sqlite_insert _ _ _) as [[e1|] n]; [discriminate|].
      unfold send_json. simpl. rewrite Hc. intros H. injection H as <-.
      exists [Recorded]. simpl. auto.
    + apply String.eqb_neq in Hp, Hr.
      rewrite (handle_other_type _ _ _ _ _ _ r ty w Hty Hp Hr).
      assert (Hrow : recorded_row (Object r) = []).
      { simpl. rewrite Hty. apply String.eqb_neq in Hr. rewrite Hr.
        destruct (req_command r); reflexivity. }
      rewrite Hrow. clear Hrow.
      intros H. injection H as <-.
      exists []. rewrite !app_nil_r. simpl. auto.
Qed.

(** A frame whose handling raises on an open websocket stores nothing. *)
Lemma handle_raise_rows (data : Frame) (w w' : World Vocab) (e : string) :
  connected w = true ->
  handle data w = (Raise e, w') ->
  command_history w' = command_history w.
Proof.
  intros Hc. destruct data as [e0|e0|r];
    [intros H; injection H as _ <-; reflexivity ..|].
  destruct (req_type r) as [ty|] eqn:Hty;
    [|rewrite (handle_missing_type r w Hty); intros H; injection H as _ <-;
      reflexivity].
  destruct (String.eqb ty "predict") eqn:Hp.
  - apply String.eqb_eq in Hp. subst ty.
    destruct (req_current_input r) as [ci|] eqn:Hci;
      [|rewrite (handle_missing_current_input r w Hty Hci); intros H;
        injection H as _ <-; reflexivity].
    rewrite (handle_predict _ _ _ _ _ _ r ci w Hty Hci).
    pose proof (predict_frame generate fit transform dot argsort ci
                  (default [] (req_history r)) w) as (_ & Hc' & Hh).
    destruct (predict ci (default [] (req_history r)) w) as [[preds|e1] w1];
      simpl in *.
    + unfold send_json. rewrite Hc', Hc. discriminate.
    + intros H. injection H as _ <-. exact Hh.
  - destruct (String.eqb ty "record") eqn:Hr.
    + apply String.eqb_eq in Hr. subst ty.
      destruct (req_command r) as [cmd|] eqn:Hcmd;
        [|rewrite (handle_missing_command r w Hty Hcmd); intros H;
          injection H as _ <-; reflexivity].
      rewrite (handle_record _ _ _ _ _ _ r cmd w Hty Hcmd). unfold record_command.
      destruct (sqlite_insert _ _ _) as [[e1|] n].
      * intros H. injection H as _ <-. reflexivity.
      * unfold send_json. simpl. rewrite Hc. discriminate.
    + apply String.eqb_neq in Hp, Hr.
      rewrite (handle_other_type _ _ _ _ _ _ r ty w Hty Hp Hr). discriminate.
Qed.

(** ** A run of frames *)

Lemma handle_run_spec (frames : list Frame) (w w' : World Vocab) :
  connected w = true ->
  handle_run frames w = (Return tt, w') ->
  exists sent : list Envelope,
    outbox w' = outbox w ++ sent /\
    command_history w' = command_history w ++ flat_map recorded_row frames /\
    length sent <= length frames /\
    List.filter is_error sent = [] /\
    length (List.filter is_recorded sent)
    = length (flat_map recorded_row frames).
Proof.
  revert w. induction frames as [|data rest IH]; intros w Hc Hrun; simpl in *.
  - injection Hrun as <-. exists []. rewrite !app_nil_r. auto.
  - unfold bind in Hrun.
    destruct (handle data w) as [[[]|e] w1] eqn:Hdata; [|discriminate].
    pose proof (handle_connected generate fit transform dot argsort sqlite_insert
                  data w) as Hc1.
    rewrite Hdata in Hc1. simpl in Hc1. rewrite Hc in Hc1.
    destruct (handle_return_spec data w w1 Hc Hdata)
      as (s1 & Ho1 & Hh1 & Hl1 & He1 & Hr1).
    destruct (IH w1 Hc1 Hrun) as (s2 & Ho2 & Hh2 & Hl2 & He2 & Hr2).
    exists (s1 ++ s2).
    rewrite Ho2, Ho1, Hh2, Hh1, <- !app_assoc, !List.filter_app, !length_app,
      He1, He2, Hr1, Hr2.
    repeat split; auto. lia.
Qed.

(** Either every frame is handled without an exception, or there is a
    first frame whose handling raises. *)
Lemma handle_run_cases (frames : list Frame) (w : World Vocab) :
  (exists w1, handle_run frames w = (Return tt, w1)) \/
  (exists pre data rest w1 e w2,
     frames = pre ++ data :: rest /\
     handle_run pre w = (Return tt, w1) /\
     handle data w1 = (Raise e, w2)).
Proof.
  revert w. induction frames as [|data rest IH]; intros w; simpl.
  - left. eauto.
  - unfold bind. destruct (handle data w) as [[[]|e] w1] eqn:Hdata.
    + destruct (IH w1) as [[w2 H]|(pre & d & rest' & w2 & e & w3 & -> & H1 & H2)].
      * left. eauto.
      * right. exists (data :: pre), d, rest', w2, e, w3. simpl. unfold bind.
        rewrite Hdata. auto.
    + right. exists [], data, rest, w, e, w1. auto.
Qed.

(** The endpoint when every frame is handled and the client then leaves:
    nothing more is sent. *)
Lemma endpoint_all_handled (frames : list Frame) (w w1 : World Vocab) :
  handle_run frames w = (Return tt, w1) ->
  endpoint frames w
  = (Raise "websocket is not connected", set_connected false w1).
Proof.
  intros Hrun. unfold websocket_endpoint, try_except.
  rewrite <- (app_nil_r frames), receive_loop_app, Hrun. reflexivity.
Qed.

Lemma no_error_lookup (sent : list Envelope) (i : nat) (e : string) :
  List.filter is_error sent = [] -> sent !! i = Some (Error e) -> False.
Proof.
  intros Hnone Hi.
  assert (Hin : In (Error e) (List.filter is_error sent)).
  { apply filter_In. split; [|reflexivity].
    apply list_elem_of_In. eapply list_elem_of_lookup_2, Hi. }
  rewrite Hnone in Hin. exact Hin.
Qed.

(** What a whole session on an open websocket leaves behind. *)
Lemma endpoint_run_spec (frames : list Frame) (w w' : World Vocab)
    (o : outcome unit) :
  connected w = true ->
  endpoint frames w = (o, w') ->
  exists (sent : list Envelope) (added : list (string * string)),
    outbox w' = outbox w ++ sent /\
    command_history w' = command_history w ++ added /\
    added `prefix_of` flat_map recorded_row frames /\
    length sent <= length frames /\
    (forall i e, sent !! i = Some (Error e) -> S i = length sent) /\
    length (List.filter is_recorded sent) = length added.
Proof.
  intros Hc Hrun.
  destruct (handle_run_cases frames w)
    as [[w1 Hall]|(pre & data & rest & w1 & e & w2 & -> & Hpre & Hdata)].
  - rewrite (endpoint_all_handled frames w w1 Hall) in Hrun.
    injection Hrun as _ <-.
    destruct (handle_run_spec frames w w1 Hc Hall)
      as (sent & Ho & Hh & Hl & He & Hr).
    exists sent, (flat_map recorded_row frames). simpl.
    repeat split; auto.
    intros i e Hi. destruct (no_error_lookup sent i e He Hi).
  - rewrite (endpoint_first_exception generate fit transform dot argsort
               sqlite_insert pre rest data w w1 w2 e Hc Hpre Hdata) in Hrun.
    injection Hrun as _ <-.
    destruct (handle_run_spec pre w w1 Hc Hpre)
      as (sent & Ho & Hh & Hl & He & Hr).
    pose proof (handle_run_connected generate fit transform dot argsort
                  sqlite_insert pre w) as Hc1.
    rewrite Hpre in Hc1. simpl in Hc1. rewrite Hc in Hc1.
    exists (sent ++ [Error e]), (flat_map recorded_row pre). simpl.
    rewrite (handle_raise_outbox generate fit transform dot argsort
               sqlite_insert data w1 w2 e Hdata), Ho.
    rewrite (handle_raise_rows data w1 w2 e Hc1 Hdata), Hh.
    rewrite <- app_assoc, flat_map_app, !length_app, List.filter_app, length_app.
    simpl. repeat split; auto.
    + apply prefix_app_r. reflexivity.
    + lia.
    + intros i e0 Hi. destruct (decide (i < length sent)) as [Hlt|Hge].
      * rewrite lookup_app_l in Hi by exact Hlt.
        destruct (no_error_lookup sent i e0 He Hi).
      * apply lookup_lt_Some in Hi. rewrite length_app in Hi. simpl in Hi. lia.
    + lia.
Qed.

(** X9. A request object whose type is any string other than "predict"
    and "record", compared exactly, is handled with no reply, no library
    call and no change of state, and the session goes on as if the frame
    had not come. *)
Theorem other_type_ignored (r : Request) (ty : string) (rest : list Frame)
    (w : World Vocab) :
  req_type r = Some ty -> ty <> "predict" -> ty <> "record" ->
  handle (Object r) w = (Return tt, w) /\
  endpoint (Object r :: rest) w = endpoint rest w.
Proof.
  intros Hty Hp Hr.
  pose proof (handle_other_type generate fit transform dot argsort sqlite_insert
                r ty w Hty Hp Hr) as Hskip.
  split; [exact Hskip|].
  unfold websocket_endpoint, try_except. simpl. unfold bind. rewrite Hskip.
  reflexivity.
Qed.

(** X10. On an open websocket, a frame that cannot be decoded, that is not
    an object, that has no "type", a predict request without
    "current_input" and a record request without "command" are each
    answered with one error envelope, whose message is the message of the
    decoder, respectively the quoted name of the missing key; no library
    is called and nothing else changes; the frames behind it are not
    handled. *)
Theorem malformed_frame_error_reply (rest : list Frame) (w : World Vocab) :
  connected w = true ->
  let reply message := (Return tt, set_outbox (outbox w ++ [Error message]) w) in
  (forall e, endpoint (Undecodable e :: rest) w = reply e) /\
  (forall e, endpoint (NotAnObject e :: rest) w = reply e) /\
  (forall r, req_type r = None ->
     endpoint (Object r :: rest) w = reply "'type'") /\
  (forall r, req_type r = Some "predict" -> req_current_input r = None ->
     endpoint (Object r :: rest) w = reply "'current_input'") /\
  (forall r, req_type r = Some "record" -> req_command r = None ->
     endpoint (Object r :: rest) w = reply "'command'").
Proof.
  intros Hc reply.
  assert (Hfirst : forall data e,
            handle data w = (Raise e, w) -> endpoint (data :: rest) w = reply e).
  { intros data e Hdata.
    apply (endpoint_first_exception generate fit transform dot argsort
             sqlite_insert [] rest data w w w e Hc); [reflexivity|exact Hdata]. }
  repeat split.
  - intros e. apply Hfirst. reflexivity.
  - intros e. apply Hfirst. reflexivity.
  - intros r Hty. apply Hfirst, handle_missing_type, Hty.
  - intros r Hty Hci. apply Hfirst, handle_missing_current_input; assumption.
  - intros r Hty Hcmd. apply Hfirst, handle_missing_command; assumption.
Qed.

(** X11. A predict request without a "history" key is served as with an
    empty history: on an open websocket, when the proposer answers, the
    reply is one predictions envelope with the outputs that begin with
    [current_input], each with score 0.8, and the vectorizer is not
    touched. *)
Theorem predict_request_without_history (r : Request) (current_input : string)
    (w : World Vocab) (outputs : list string) (n : N) :
  connected w = true ->
  req_type r = Some "predict" ->
  req_current_input r = Some current_input ->
  req_history r = None ->
  generate (external w) current_input = (Return outputs, n) ->
  exists w',
    handle (Object r) w = (Return tt, w') /\
    outbox w'
    = outbox w ++ [Predictions
                     (map (fun pred => mkCandidate pred 0.8)
                          (List.filter
                             (fun decoded => String.prefix current_input decoded)
                             outputs))] /\
    vocabulary w' = vocabulary w /\
    trace w' = trace w ++ [CallGenerate current_input].
Proof.
  intros Hc Hty Hci Hh Hgen.
  rewrite (handle_predict _ _ _ _ _ _ r current_input w Hty Hci), Hh. simpl.
  rewrite (predict_empty_history _ _ _ _ _ _ _ _ _ Hgen).
  unfold send_json. simpl. rewrite Hc. eexists. split; [reflexivity|].
  simpl. auto.
Qed.

(** X12. When a run of frames is handled on an open websocket without an
    exception, the table has grown by exactly the rows of the record
    requests among them, in the order of arrival, each with its context or
    the empty context; the rows that were there are untouched. *)
Theorem handled_frames_store_rows (frames : list Frame) (w w' : World Vocab) :
  connected w = true ->
  handle_run frames w = (Return tt, w') ->
  command_history w' = command_history w ++ flat_map recorded_row frames.
Proof.
  intros Hc Hrun.
  destruct (handle_run_spec frames w w' Hc Hrun) as (sent & _ & Hh & _).
  exact Hh.
Qed.

(** X13. A session on an open websocket only adds to what was sent, sends
    at most one envelope per frame received, and sends an error envelope
    only as the last envelope of the session. *)
Theorem endpoint_outbox_bound (frames : list Frame) (w w' : World Vocab)
    (o : outcome unit) :
  connected w = true ->
  endpoint frames w = (o, w') ->
  exists sent : list Envelope,
    outbox w' = outbox w ++ sent /\
    length sent <= length frames /\
    forall i e, sent !! i = Some (Error e) -> S i = length sent.
Proof.
  intros Hc Hrun.
  destruct (endpoint_run_spec frames w w' o Hc Hrun)
    as (sent & added & Ho & _ & _ & Hl & He & _).
  exists sent. auto.
Qed.

(** X14. A session on an open websocket only appends to the table: the
    rows added are the rows of the first record requests of the session,
    in order, and there are exactly as many of them as recorded envelopes
    sent. *)
Theorem endpoint_acks_match_rows (frames : list Frame) (w w' : World Vocab)
    (o : outcome unit) :
  connected w = true ->
  endpoint frames w = (o, w') ->
  exists (sent : list Envelope) (added : list (string * string)),
    outbox w' = outbox w ++ sent /\
    command_history w' = command_history w ++ added /\
    added `prefix_of` flat_map recorded_row frames /\
    length (List.filter is_recorded sent) = length added.
Proof.
  intros Hc Hrun.
  destruct (endpoint_run_spec frames w w' o Hc Hrun)
    as (sent & added & Ho & Hh & Hp & _ & _ & Hr).
  exists sent, added. auto.
Qed.

End SessionMore.

(** ** The further properties on concrete runs *)

Lemma predict_raises_iff_witness :
  (Stub.predict (Raise "model failure") Scenario.table Scenario.current_input
                Scenario.history Stub.fresh).1
  = Raise "model failure".
Proof.
  apply (predict_raises_iff
           (Stub.generate (Raise "model failure")) Stub.fit Stub.transform
           (Stub.dot Scenario.table) Stub.argsort
           Scenario.current_input Scenario.history Stub.fresh "model failure"
           stub_argsort_spec).
  left. reflexivity.
Defined.

Lemma predict_generative_first_occurrence_witness :
  NoDup (map command Scenario.result) /\
  exists hist : list Candidate,
    Scenario.result
    = map (fun pred => mkCandidate pred 0.8)
          (keep_first
             (List.filter (fun decoded => String.prefix Scenario.current_input decoded)
                          ["git status"; "python"; "git status"]))
      ++ hist.
Proof.
  apply (predict_generative_first_occurrence
           (Stub.generate (Return ["git status"; "python"; "git status"]))
           Stub.fit Stub.transform (Stub.dot Scenario.table) Stub.argsort
           Scenario.current_input Scenario.history Stub.fresh
           (Stub.predict (Return ["git status"; "python"; "git status"])
                         Scenario.table Scenario.current_input
                         Scenario.history Stub.fresh).2
           ["git status"; "python"; "git status"] 0%N Scenario.result).
  - discriminate.
  - reflexivity.
  - vm_compute. reflexivity.
Defined.

Lemma predict_refits_vectorizer_witness :
  let w := set_vocabulary (Some ["pwd"]) Stub.fresh in
  let w' := (Stub.predict (Return Scenario.outputs) Scenario.table
                          Scenario.current_input Scenario.history w).2 in
  exists v : list string,
    Stub.fit Scenario.history = Return v /\
    vocabulary w' = Some v /\
    trace w' = trace w ++ [CallGenerate Scenario.current_input;
                           CallFit Scenario.history;
                           CallTransform [Scenario.current_input];
                           CallTransform Scenario.history].
Proof.
  intros w w'.
  apply (predict_refits_vectorizer
           (Stub.generate (Return Scenario.outputs)) Stub.fit Stub.transform
           (Stub.dot Scenario.table) Stub.argsort
           Scenario.current_input Scenario.history w w' Scenario.result).
  - discriminate.
  - vm_compute. reflexivity.
Defined.

Lemma predict_left_out_not_more_similar_witness :
  exists (v : list string) (hist : list Candidate),
    Stub.fit Longer.history = Return v /\
    Longer.result
    = generative_part Scenario.current_input Scenario.outputs ++ hist /\
    forall c h,
      c ∈ hist -> h ∈ Longer.history -> h ∉ map command Longer.result ->
      (similarity Stub.transform (Stub.dot Longer.table) v
                  Scenario.current_input h <= score c)%Q.
Proof.
  apply (predict_left_out_not_more_similar
           (Stub.generate (Return Scenario.outputs)) Stub.fit Stub.transform
           (Stub.dot Longer.table) Stub.argsort
           Scenario.current_input Longer.history Stub.fresh
           (Stub.predict (Return Scenario.outputs) Longer.table
                         Scenario.current_input Longer.history Stub.fresh).2
           Scenario.outputs 0%N Longer.result).
  - exact stub_argsort_spec.
  - discriminate.
  - reflexivity.
  - vm_compute. reflexivity.
Defined.

Lemma predict_contains_most_similar_witness :
  exists (v : list string) (best : string),
    Stub.fit Longer.history = Return v /\
    best ∈ Longer.history /\
    best ∈ map command Longer.result /\
    forall h, h ∈ Longer.history ->
      (similarity Stub.transform (Stub.dot Longer.table) v
                  Scenario.current_input h
       <= similarity Stub.transform (Stub.dot Longer.table) v
                     Scenario.current_input best)%Q.
Proof.
  apply (predict_contains_most_similar
           (Stub.generate (Return Scenario.outputs)) Stub.fit Stub.transform
           (Stub.dot Longer.table) Stub.argsort
           Scenario.current_input Longer.history Stub.fresh
           (Stub.predict (Return Scenario.outputs) Longer.table
                         Scenario.current_input Longer.history Stub.fresh).2
           Scenario.outputs 0%N Longer.result).
  - exact stub_argsort_spec.
  - discriminate.
  - reflexivity.
  - vm_compute. reflexivity.
Defined.

Lemma predict_result_length_witness :
  length Longer.result <= length Scenario.outputs + 3 /\
  (Longer.history = [] -> length Longer.result <= length Scenario.outputs).
Proof.
  apply (predict_result_length
           (Stub.generate (Return Scenario.outputs)) Stub.fit Stub.transform
           (Stub.dot Longer.table) Stub.argsort
           Scenario.current_input Longer.history Stub.fresh
           (Stub.predict (Return Scenario.outputs) Longer.table
                         Scenario.current_input Longer.history Stub.fresh).2
           Scenario.outputs 0%N Longer.result).
  - reflexivity.
  - vm_compute. reflexivity.
Defined.

Lemma predict_empty_input_keeps_all_witness :
  (Stub.predict (Return Scenario.outputs) Scenario.table EmptyString []
                Stub.fresh).1
  = Return (map (fun pred => mkCandidate pred 0.8) Scenario.outputs).
Proof.
  apply (predict_empty_input_keeps_all
           (Stub.generate (Return Scenario.outputs)) Stub.fit Stub.transform
           (Stub.dot Scenario.table) Stub.argsort Stub.fresh
           Scenario.outputs 0%N).
  reflexivity.
Defined.

Lemma other_type_ignored_witness :
  handle_message (Stub.generate (Return Scenario.outputs)) Stub.fit
    Stub.transform (Stub.dot Scenario.table) Stub.argsort Stub.insert_ok
    (Object Longer.capitalised_request) Stub.fresh
  = (Return tt, Stub.fresh) /\
  Stub.session (Return Scenario.outputs) Scenario.table Stub.insert_ok
               (Object Longer.capitalised_request
                :: [Object Scenario.record_request]) Stub.fresh
  = Stub.session (Return Scenario.outputs) Scenario.table Stub.insert_ok
                 [Object Scenario.record_request] Stub.fresh.
Proof.
  apply (other_type_ignored
           (Stub.generate (Return Scenario.outputs)) Stub.fit Stub.transform
           (Stub.dot Scenario.table) Stub.argsort Stub.insert_ok
           Longer.capitalised_request "Predict"
           [Object Scenario.record_request] Stub.fresh).
  - reflexivity.
  - discriminate.
  - discriminate.
Defined.

Lemma malformed_frame_error_reply_witness :
  Stub.session (Return Scenario.outputs) Scenario.table Stub.insert_ok
               [Object (mkRequest (Some "record") None None None (Some "ctx"));
                Object Scenario.record_request] Stub.fresh
  = (Return tt, set_outbox [Error "'command'"] Stub.fresh).
Proof.
  destruct (malformed_frame_error_reply
              (Stub.generate (Return Scenario.outputs)) Stub.fit Stub.transform
              (Stub.dot Scenario.table) Stub.argsort Stub.insert_ok
              [Object Scenario.record_request] Stub.fresh eq_refl)
    as (_ & _ & _ & _ & Hcommand).
  apply Hcommand; reflexivity.
Defined.

Lemma predict_request_without_history_witness :
  exists w',
    handle_message (Stub.generate (Return Scenario.outputs)) Stub.fit
      Stub.transform (Stub.dot Scenario.table) Stub.argsort Stub.insert_ok
      (Object Longer.bare_predict_request) Stub.fresh
    = (Return tt, w') /\
    outbox w'
    = outbox Stub.fresh
      ++ [Predictions
            (map (fun pred => mkCandidate pred 0.8)
                 (List.filter
                    (fun decoded => String.prefix Scenario.current_input decoded)
                    Scenario.outputs))] /\
    vocabulary w' = vocabulary Stub.fresh /\
    trace w' = trace Stub.fresh ++ [CallGenerate Scenario.current_input].
Proof.
  apply (predict_request_without_history
           (Stub.generate (Return Scenario.outputs)) Stub.fit Stub.transform
           (Stub.dot Scenario.table) Stub.argsort Stub.insert_ok
           Longer.bare_predict_request Scenario.current_input Stub.fresh
           Scenario.outputs 0%N); reflexivity.
Defined.

Lemma handled_frames_store_rows_witness :
  command_history
    (handle_all (Stub.generate (Return Scenario.outputs)) Stub.fit
       Stub.transform (Stub.dot Scenario.table) Stub.argsort Stub.insert_ok
       Longer.handled Stub.fresh).2
  = command_history Stub.fresh ++ flat_map recorded_row Longer.handled.
Proof.
  apply (handled_frames_store_rows
           (Stub.generate (Return Scenario.outputs)) Stub.fit Stub.transform
           (Stub.dot Scenario.table) Stub.argsort Stub.insert_ok
           Longer.handled Stub.fresh).
  - reflexivity.
  - vm_compute. reflexivity.
Defined.

Lemma endpoint_outbox_bound_witness :
  exists sent : list Envelope,
    outbox (Stub.session (Return Scenario.outputs) Scenario.table
              Stub.insert_ok Longer.frames Stub.fresh).2
    = outbox Stub.fresh ++ sent /\
    length sent <= length Longer.frames /\
    forall i e, sent !! i = Some (Error e) -> S i = length sent.
Proof.
  apply (endpoint_outbox_bound
           (Stub.generate (Return Scenario.outputs)) Stub.fit Stub.transform
           (Stub.dot Scenario.table) Stub.argsort Stub.insert_ok
           Longer.frames Stub.fresh _ (Return tt)).
  - reflexivity.
  - vm_compute. reflexivity.
Defined.

Lemma endpoint_acks_match_rows_witness :
  exists (sent : list Envelope) (added : list (string * string)),
    outbox (Stub.session (Return Scenario.outputs) Scenario.table
              Stub.insert_ok Longer.frames Stub.fresh).2
    = outbox Stub.fresh ++ sent /\
    command_history (Stub.session (Return Scenario.outputs) Scenario.table
                       Stub.insert_ok Longer.frames Stub.fresh).2
    = command_history Stub.fresh ++ added /\
    added `prefix_of` flat_map recorded_row Longer.frames /\
    length (List.filter is_recorded sent) = length added.
Proof.
  apply (endpoint_acks_match_rows
           (Stub.generate (Return Scenario.outputs)) Stub.fit Stub.transform
           (Stub.dot Scenario.table) Stub.argsort Stub.insert_ok
           Longer.frames Stub.fresh _ (Return tt)).
  - reflexivity.
  - vm_compute. reflexivity.
Defined.
